(** * Audio-reactive visualizer: spectrum analysis, render core and export job

    Shallow embedding of [components/VideoGeneratorModal.tsx].

    Numbers.  JavaScript numbers are modelled by exact arithmetic: integer
    quantities (indices, counts, byte values) are [Z], fractional quantities
    are rationals [Q] (decimal literals such as [0.15] are the exact fraction
    [15/100]).  Rounding of IEEE doubles is not modelled.  The transcendental
    functions of [Math] are an interface ([MathLib]) the render core is
    parameterised by. *)

From Stdlib Require Import ZArith QArith Qround Qabs Qminmax Bool String List Lia Lqa.
Import ListNotations.

Local Open Scope Z_scope.

(** ** JavaScript numeric primitives *)

Module JS.

Definition Math_floor (x : Q) : Z := Qfloor x.
Definition Math_ceil (x : Q) : Z := Qceiling x.

(** [Math.round]: nearest integer, halves towards +infinity. *)
Definition Math_round (x : Q) : Z := Qfloor (x + (1 # 2)).

(** Truncation towards zero, as in [ToInteger]. *)
Definition trunc (x : Q) : Z :=
  if Qle_bool 0 x then Qfloor x else Qceiling x.

(** Storing a number into a [Uint8Array] element: [ToUint8]. *)
Definition ToUint8 (x : Q) : Z := trunc x mod 256.

(** The [%] operator on numbers: remainder with the sign of the dividend. *)
Definition rem (x y : Q) : Q := (x - y * inject_Z (trunc (x / y)))%Q.

(** [for (let i = 0; i < n; i++)]: the indices visited, in order. *)
Definition range (n : Z) : list Z := map Z.of_nat (seq 0 (Z.to_nat n)).

Definition Qsum (l : list Q) : Q := fold_right Qplus 0%Q l.

(** Arithmetic mean of a non-empty list (0 on the empty list). *)
Definition mean (l : list Q) : Q :=
  match l with
  | [] => 0%Q
  | _ => (Qsum l / inject_Z (Z.of_nat (length l)))%Q
  end.

(** [arr.slice(lo, hi)] for [0 <= lo]. *)
Definition slice {A} (l : list A) (lo hi : Z) : list A :=
  firstn (Z.to_nat (hi - lo)) (skipn (Z.to_nat lo) l).

(** The transcendental part of [Math], left abstract. *)
Class MathLib := mkMath {
  Math_sin : Q -> Q;
  Math_cos : Q -> Q;
  Math_pow : Q -> Q -> Q;
  Math_PI : Q
}.

(** A coarse instance (low-order polynomials) for evaluating examples. *)
Definition coarseMath : MathLib :=
  mkMath (fun x => x - x * x * x / 6)%Q
         (fun x => 1 - x * x / 2)%Q
         (fun x _ => x)
         3.14159%Q.

End JS.

(** ** Offline spectrum provider: [analyzeAudioOffline] *)

Module Spectrum.
Import JS.

(** The part of a decoded [AudioBuffer] the analysis reads: the sample rate
    and the samples of channel 0.  [duration] is [length / sampleRate]. *)
Record AudioBuffer := mkAudioBuffer {
  sampleRate : Z;
  channelData : list Q
}.

Definition len (data : list Q) : Z := Z.of_nat (length data).

Definition duration (b : AudioBuffer) : Q :=
  (inject_Z (len (channelData b)) / inject_Z (sampleRate b))%Q.

Definition fftSize : Z := 2048.
Definition frequencyBinCount : Z := Eval cbv in fftSize / 2.

Definition totalFrames (b : AudioBuffer) (fps : Z) : Z :=
  Math_ceil (duration b * inject_Z fps).

Definition samplesPerFrame (b : AudioBuffer) (fps : Z) : Z :=
  Math_floor (inject_Z (sampleRate b) / inject_Z fps).

(** [channelData[i]] for an index inside the array. *)
Definition sampleAt (data : list Q) (i : Z) : Q := nth (Z.to_nat i) data 0%Q.

(** [for (let i = binStart; i < binEnd && i < channelData.length; i++)
       sum += Math.abs(channelData[i]);]
    [fuel] bounds the number of iterations; [binEnd - binStart] is enough. *)
Fixpoint sumLoop (data : list Q) (fuel : nat) (i binEnd : Z) (sum : Q) : Q :=
  match fuel with
  | O => sum
  | S fuel' =>
      if (i <? binEnd) && (i <? len data)
      then sumLoop data fuel' (i + 1) binEnd (sum + Qabs (sampleAt data i))%Q
      else sum
  end.

(** Body of the loop over [bin]: the value stored in [frameData[bin]]. *)
Definition binValue (data : list Q) (startSample endSample bin : Z) : Z :=
  let binSize :=
    Z.max 1 (Math_floor (inject_Z (endSample - startSample) / inject_Z frequencyBinCount)) in
  let binStart := startSample + bin * binSize in
  let binEnd := Z.min (binStart + binSize) endSample in
  let sum := sumLoop data (Z.to_nat (binEnd - binStart)) binStart binEnd 0%Q in
  let avg := if 0 <? binSize then (sum / inject_Z binSize)%Q else 0%Q in
  ToUint8 (inject_Z (Z.min 255 (Math_floor (avg * 512)))).

(** Body of the loop over [frame]: one [Uint8Array(frequencyBinCount)]. *)
Definition frameData (data : list Q) (spf frame : Z) : list Z :=
  let startSample := frame * spf in
  let endSample := Z.min (startSample + fftSize) (len data) in
  map (binValue data startSample endSample) (range frequencyBinCount).

Definition analyzeAudioOffline (b : AudioBuffer) (fps : Z) : list (list Z) :=
  map (frameData (channelData b) (samplesPerFrame b fps))
      (range (totalFrames b fps)).

(** The analysis as the specification text words it: the buffer is cut into
    consecutive windows of [sampleRate/fps] samples, each window into 1024
    equal sub-bins, and a bin holds [min(255, floor(mean(|sample|) * 512))]
    over the samples of its sub-bin. *)
Definition specBin (b : AudioBuffer) (fps frame bin : Z) : Z :=
  let window := sampleRate b / fps in
  let sub := window / 1024 in
  let lo := frame * window + bin * sub in
  Z.min 255 (Qfloor (mean (map Qabs (slice (channelData b) lo (lo + sub))) * 512)).

Definition specAnalyze (b : AudioBuffer) (fps : Z) : list (list Z) :=
  map (fun frame => map (specBin b fps frame) (range 1024))
      (range (totalFrames b fps)).

(** Sample buffers.  [overlapBuffer]: a tenth of a second at 48 kHz (three
    frames at 30 fps), silent but for sample 2000.  [tenSecondsOfSilence]:
    ten seconds at 44.1 kHz. *)
Definition overlapBuffer : AudioBuffer :=
  mkAudioBuffer 48000 (repeat 0%Q 2000 ++ (1 # 4)%Q :: repeat 0%Q 2799).

Definition tenSecondsOfSilence : AudioBuffer :=
  mkAudioBuffer 44100 (repeat 0%Q (Z.to_nat 441000)).

End Spectrum.

(** ** Configuration records *)

Module Config.

Inductive PresetType :=
| NCS_Circle | Linear_Bars | Dual_Mirror | Center_Wave | Orbital
| Digital_Rain | Hexagon | Shockwave | Oscilloscope | Minimal.

Definition PresetType_eqb (a b : PresetType) : bool :=
  match a, b with
  | NCS_Circle, NCS_Circle | Linear_Bars, Linear_Bars
  | Dual_Mirror, Dual_Mirror | Center_Wave, Center_Wave
  | Orbital, Orbital | Digital_Rain, Digital_Rain | Hexagon, Hexagon
  | Shockwave, Shockwave | Oscilloscope, Oscilloscope
  | Minimal, Minimal => true
  | _, _ => false
  end.

Record VisualizerConfig := mkConfig {
  preset : PresetType;
  primaryColor : string;
  secondaryColor : string;
  bgDim : Q;
  particleCount : Z
}.

Record TextLayer := mkTextLayer {
  id : string;
  text : string;
  x : Q;
  y : Q;
  size : Q;
  color : string;
  font : string
}.

End Config.

Module Effects.
Record EffectConfig := mkEffects {
  shake : bool; glitch : bool; vhs : bool; cctv : bool; scanlines : bool;
  chromatic : bool; bloom : bool; filmGrain : bool; pixelate : bool;
  strobe : bool; vignette : bool; hueShift : bool; letterbox : bool
}.

(** All thirteen toggles are off. *)
Definition allOff (e : EffectConfig) : Prop :=
  shake e = false /\ glitch e = false /\ vhs e = false /\ cctv e = false
  /\ scanlines e = false /\ chromatic e = false /\ bloom e = false
  /\ filmGrain e = false /\ pixelate e = false /\ strobe e = false
  /\ vignette e = false /\ hueShift e = false /\ letterbox e = false.

Definition none : EffectConfig :=
  mkEffects false false false false false false false false false false
            false false false.
End Effects.

Module Intensities.
Record EffectIntensities := mkIntensities {
  shake : Q; glitch : Q; vhs : Q; cctv : Q; scanlines : Q;
  chromatic : Q; bloom : Q; filmGrain : Q; pixelate : Q;
  strobe : Q; vignette : Q; hueShift : Q; letterbox : Q
}.

(** The initial slider positions of the component. *)
Definition initial : EffectIntensities :=
  mkIntensities 0.05 0.3 0.5 0.8 0.4 0.5 0.5 0.3 0.3 0.5 0.5 0.5 0.5.
End Intensities.

(** ** The drawing surface

    A frame is the sequence of drawing steps issued on the 2D context, each
    with the values the code computed for it.  [Math.random] is a source of
    numbers consumed in call order. *)

Module Canvas.

Record ParticleArc := mkArc {
  fillStyle : string;
  shadowBlur : Q;
  shadowColor : string;
  globalAlpha : Q;
  arcX : Q;
  arcY : Q;
  arcRadius : Q
}.

(** A call of one of the preset drawing functions with its arguments
    (the glyph rain issues [RainGlyph] steps instead). *)
Inductive PresetCall :=
| drawNCSCircle (cx cy : Q) (data : list Z) (pulse time : Q) (c1 c2 : string)
| drawLinearBars (w h : Z) (data : list Z) (c1 c2 : string)
| drawDualMirror (w h : Z) (data : list Z) (color : string)
| drawCenterWave (cx cy : Q) (data : list Z) (time : Q) (color : string)
| drawOrbital (cx cy : Q) (data : list Z) (time : Q) (c1 c2 : string)
| drawHexagon (cx cy : Q) (data : list Z) (pulse time : Q) (color : string)
| drawOscilloscope (w h : Z) (data : list Z) (color : string)
| drawShockwave (cx cy : Q) (bass time : Q) (color : string).

Inductive AlbumContent := AlbumImage | Placeholder.

Inductive Op :=
| ClearFrame (w h : Z)
| DrawBackground (alpha : Q) (shake : option (Q * Q)) (zoom : Q)
| ShakePreset (dx dy : Q)
| DrawPreset (call : PresetCall)
| RainGlyph (char : Z) (gx gy alpha : Q)
| ParticleFill (arc : ParticleArc)
| DrawAlbumArt (pulse : Q) (borderColor : string) (content : AlbumContent)
| Pixelate (pixelSize smallW smallH : Z)
| DrawText (fill : string) (dynamicSize : Q) (fontName text : string) (xPos yPos : Q)
| Scanlines (alpha : Q)
| ColorShift (intensity offset : Q)
| GlitchSlice (sliceHeight sliceY offset : Q)
| GlitchBlock (fill : string) (bx by_ bw : Q)
| CctvTint (intensity : Q)
| CctvDateStamp
| CctvRec
| Bloom (intensity : Q)
| FilmGrain (stride : Z) (grainAmount : Q) (firstNoise : nat)
| Strobe (alpha : Q)
| Vignette (intensity : Q)
| HueShift (rotation : Q)
| Letterbox (barHeight : Q).

(** The stage of the per-frame pipeline a drawing step belongs to. *)
Inductive Stage :=
| BackgroundStage | PresetStage | ParticleStage | AlbumArtStage | TextStage
| PostProcessing.

Definition stageOf (op : Op) : Stage :=
  match op with
  | ClearFrame _ _ | DrawBackground _ _ _ => BackgroundStage
  | ShakePreset _ _ | DrawPreset _ | RainGlyph _ _ _ _ => PresetStage
  | ParticleFill _ => ParticleStage
  | DrawAlbumArt _ _ _ => AlbumArtStage
  | DrawText _ _ _ _ _ _ => TextStage
  | _ => PostProcessing
  end.

Definition isPostProcessing (op : Op) : bool :=
  match stageOf op with PostProcessing => true | _ => false end.

(** A step of the background, preset, particle, album-art or text stage that
    is drawn without any effect (no shake translation). *)
Definition baseStep (op : Op) : bool :=
  match op with
  | DrawBackground _ (Some _) _ | ShakePreset _ _ => false
  | _ => negb (isPostProcessing op)
  end.

Record World := mkWorld {
  randomSource : nat -> Q;   (* the values [Math.random()] returns, in order *)
  randomCalls : nat;         (* how many have been consumed *)
  canvas : list Op           (* steps drawn so far, oldest first *)
}.

Definition Draw (A : Type) : Type := World -> A * World.

Definition ret {A} (a : A) : Draw A := fun w => (a, w).

Definition bind {A B} (c : Draw A) (k : A -> Draw B) : Draw B :=
  fun w => let (a, w') := c w in k a w'.

Definition emit (op : Op) : Draw unit :=
  fun w => (tt, mkWorld (randomSource w) (randomCalls w) (canvas w ++ [op])).

(** [Math.random()] *)
Definition random : Draw Q :=
  fun w => (randomSource w (randomCalls w),
            mkWorld (randomSource w) (S (randomCalls w)) (canvas w)).

(** [n] further calls of [Math.random()] whose values only perturb pixels;
    returns the index of the first one. *)
Definition randomBurst (n : Z) : Draw nat :=
  fun w => (randomCalls w,
            mkWorld (randomSource w) (randomCalls w + Z.to_nat n) (canvas w)).

Definition when (b : bool) (c : Draw unit) : Draw unit :=
  if b then c else ret tt.

Fixpoint forEach {A} (l : list A) (body : A -> Draw unit) : Draw unit :=
  match l with
  | [] => ret tt
  | a :: l' => bind (body a) (fun _ => forEach l' body)
  end.

Definition Qgt_bool (a b : Q) : bool := negb (Qle_bool a b).

(** [c] only appends steps that satisfy [P] to the canvas. *)
Definition OnlyDraws (P : Op -> Prop) {A} (c : Draw A) : Prop :=
  forall world, exists added,
    canvas (snd (c world)) = canvas world ++ added /\ Forall P added.

(** Two states of the surface that agree once the steps of both canvases
    are passed through [E]; when [strict], [Math.random] is also at the same
    point of the same sequence. *)
Definition Related (E : Op -> list Op) (strict : bool) (w1 w2 : World) : Prop :=
  flat_map E (canvas w1) = flat_map E (canvas w2)
  /\ (strict = true ->
      randomSource w1 = randomSource w2 /\ randomCalls w1 = randomCalls w2).

(** [c1] and [c2] take related states to equal results and related states. *)
Definition Corr (E : Op -> list Op) (s s' : bool) {A} (c1 c2 : Draw A) : Prop :=
  forall w1 w2, Related E s w1 w2 ->
    fst (c1 w1) = fst (c2 w2) /\ Related E s' (snd (c1 w1)) (snd (c2 w2)).

End Canvas.

Declare Scope draw_scope.
Delimit Scope draw_scope with draw.
Notation "x <- c ;; k" := (Canvas.bind c (fun x => k))
  (at level 61, c at next level, right associativity) : draw_scope.
Notation "c ;; k" := (Canvas.bind c (fun _ => k))
  (at level 61, right associativity) : draw_scope.

(** ** Particle system: [drawParticles] *)

Module Particles.
Import JS Canvas.
Local Open Scope Q_scope.

Section WithMath.
Context {M : MathLib}.
Variables (w h : Z) (time bass : Q) (count : Z) (color : string).

Let normBass : Q := bass / 255.
Let cx : Q := inject_Z w / 2.
Let cy : Q := inject_Z h / 2.
Let W : Q := inject_Z w.
Let H : Q := inject_Z h.

Definition risingCount : Z := Math_floor (inject_Z count * 0.4).
Definition burstCount : Z := Math_floor (inject_Z count * 0.35).
Definition orbitalCount : Z := Math_floor (inject_Z count * 0.15).
Definition dustCount : Z := Math_floor (inject_Z count * 0.1).

(** Rising particles - float upward with drift *)
Definition risingParticle (i : Z) : ParticleArc :=
  let seed := inject_Z i * 127.1 in
  let xBase := rem (rem (Math_sin seed * 10000) W + W) W in
  let drift := Math_sin (time * 2 + seed) * 30 in
  let x := xBase + drift in
  let speed := 20 + inject_Z (i mod 7) * 15 in
  let y := H - rem (time * speed + seed * 10) (H + 100) in
  let size := 2 + inject_Z (i mod 4) + normBass * 3 in
  let twinkle := 0.5 + Math_sin (time * 8 + seed) * 0.3 in
  mkArc color (15 + normBass * 10) color
        (twinkle * (0.4 + normBass * 0.4)) x y size.

(** Burst particles - explode from center on bass; drawn only while
    [size > 0.5 && alpha > 0.1]. *)
Definition burstParticle (i : Z) : option ParticleArc :=
  let angle := (inject_Z i / inject_Z burstCount) * Math_PI * 2 + time * 0.3 in
  let seed := inject_Z i * 234.5 in
  let burstPhase := rem (time * 1.5 + seed * 0.01) 3 in
  let burstProgress := burstPhase / 3 in
  let maxDist := 300 + normBass * 200 in
  let dist := burstProgress * maxDist in
  let x := cx + Math_cos angle * dist in
  let y := cy + Math_sin angle * dist in
  let size := (1 - burstProgress) * (3 + normBass * 4) in
  let alpha := (1 - burstProgress) * (0.6 + normBass * 0.4) in
  if Qgt_bool size 0.5 && Qgt_bool alpha 0.1
  then Some (mkArc color 10 color alpha x y size)
  else None.

(** Orbital sparkles - circle around center *)
Definition orbitalParticle (i : Z) : ParticleArc :=
  let orbitRadius := 150 + inject_Z (i mod 4) * 80 + normBass * 50 in
  let speed := (if (i mod 2 =? 0)%Z then 1 else -1) * (0.8 + inject_Z (i mod 3) * 0.3) in
  let angle := time * speed + (inject_Z i / inject_Z orbitalCount) * Math_PI * 2 in
  let x := cx + Math_cos angle * orbitRadius in
  let y := cy + Math_sin angle * orbitRadius in
  let sparkle := 0.5 + Math_sin (time * 12 + inject_Z i * 5) * 0.5 in
  let size := 2 + sparkle * 2 + normBass * 2 in
  mkArc "#fff" 20 color (sparkle * 0.8) x y size.

(** Floating dust - subtle background particles *)
Definition dustParticle (i : Z) : ParticleArc :=
  let seed := inject_Z i * 567.8 in
  let x := rem (rem (Math_sin seed * 10000) W + W) W in
  let y := rem (rem (Math_cos seed * 10000) H + H) H in
  let drift := Math_sin (time + seed) * 2 in
  let size := 1 + Math_sin (time * 3 + seed) * 0.5 in
  mkArc "#fff" 5 "#fff" (0.2 + normBass * 0.2) (x + drift) y size.

Definition drawParticles : Draw unit :=
  (forEach (range risingCount) (fun i => emit (ParticleFill (risingParticle i))) ;;
   forEach (range burstCount) (fun i =>
     match burstParticle i with
     | Some arc => emit (ParticleFill arc)
     | None => ret tt
     end) ;;
   forEach (range orbitalCount) (fun i => emit (ParticleFill (orbitalParticle i))) ;;
   forEach (range dustCount) (fun i => emit (ParticleFill (dustParticle i))))%draw.

(** The particles of one call, by sub-population and index. *)
Definition particles : list ParticleArc :=
  map risingParticle (range risingCount)
  ++ flat_map (fun i => match burstParticle i with Some a => [a] | None => [] end)
              (range burstCount)
  ++ map orbitalParticle (range orbitalCount)
  ++ map dustParticle (range dustCount).

End WithMath.
End Particles.

(** ** Render core: one frame of [renderOffline] and one pass of [renderLoop] *)

Module Render.
Import JS Canvas.
Local Open Scope Q_scope.

(** [dataArray[i]], read from a [Uint8Array] that has an entry [i] (both
    providers allocate 1024 entries; the render code reads below 256). *)
Definition binAt (dataArray : list Z) (i : Z) : Q :=
  inject_Z (nth (Z.to_nat i) dataArray 0%Z).

(** [let bass = 0; for (let i = 0; i < 20; i++) bass += dataArray[i];] *)
Definition bassSum (dataArray : list Z) : Q :=
  fold_left (fun bass i => bass + binAt dataArray i) (range 20) 0.

Record Levels := mkLevels { bass : Q; normBass : Q; pulse : Q }.

(** [renderOffline], "Calculate bass and pulse". *)
Definition offlineLevels (dataArray : list Z) : Levels :=
  let bass := bassSum dataArray in
  let bass := bass / 20 in
  let normBass := bass / 255 in
  let pulse := 1 + normBass * 0.15 in
  mkLevels bass normBass pulse.

(** [renderLoop], "Bass Calc". *)
Definition liveLevels (dataArray : list Z) : Levels :=
  let bass := bassSum dataArray in
  let bass := bass / 20 in
  let normBass := bass / 255 in
  let pulse := 1 + normBass * 0.15 in
  mkLevels bass normBass pulse.

(** A frame with every bin at full scale. *)
Definition fullScaleFrame : list Z := repeat 255%Z 1024.

(** [['NCS Circle', 'Hexagon', 'Orbital', 'Shockwave'].includes(preset)] *)
Definition hasAlbumArt (p : Config.PresetType) : bool :=
  match p with
  | Config.NCS_Circle | Config.Hexagon | Config.Orbital | Config.Shockwave => true
  | _ => false
  end.

(** [(Math.random() - 0.5) * magnitude * normBass], for x then for y. *)
Definition shakeVector (magnitude normBass : Q) : Draw (Q * Q) :=
  (r1 <- random ;;
   r2 <- random ;;
   ret ((r1 - 0.5) * magnitude * normBass, (r2 - 0.5) * magnitude * normBass))%draw.

(** [currentEffects.glitch && Math.random() > (1 - currentIntensities.glitch)]:
    [Math.random] is called only when the toggle is on. *)
Definition glitchTriggered (eff : Effects.EffectConfig)
    (ints : Intensities.EffectIntensities) : Draw bool :=
  if Effects.glitch eff
  then (r <- random ;; ret (Qgt_bool r (1 - Intensities.glitch ints)))%draw
  else ret false.

(** Iterations of [for (let i = 0; i < length; i += stride)]. *)
Definition strideCount (length stride : Z) : Z := ((length + stride - 1) / stride)%Z.

Section WithMath.
Context {M : MathLib}.

(** [renderOffline]: the synthetic time-domain data of a frame. *)
Definition offlineTimeDomain (dataArray : list Z) (time : Q) : list Z :=
  let bassSum := bassSum dataArray in
  let bassLevel := bassSum / 20 / 255 in
  map (fun i => ToUint8 (128 + Math_sin (inject_Z i * 0.1 + time * 10) * 64 * bassLevel))
      (range 1024).

Definition drawDigitalRain (w h : Z) (data : list Z) (time : Q) (color : string)
    : Draw unit :=
  let cols := 50%Z in
  let colW := inject_Z w / inject_Z cols in
  forEach (range cols) (fun i =>
    let val := binAt data (i * 2) in
    let normalized := val / 255 in
    let len := (8 + Math_floor (Math_pow normalized 1.3 * 15))%Z in
    let baseSpeed := 40 + inject_Z (i mod 5) * 10 in
    let speedOffset := rem (time * baseSpeed) (inject_Z h) in
    forEach (range len) (fun j =>
      (r <- random ;;
       let char := (trunc (12448 + r * 96) mod 65536)%Z in
       let y := rem (speedOffset + inject_Z j * 18) (inject_Z h) in
       emit (RainGlyph char (inject_Z i * colW) y
                       ((1 - inject_Z j / inject_Z len) * 0.8)))%draw)).

Definition drawAlbumArt (pulse : Q) (borderColor : string)
    (preloadedImage urlImageComplete : bool) : Draw unit :=
  emit (DrawAlbumArt pulse borderColor
          (if preloadedImage then AlbumImage
           else if urlImageComplete then AlbumImage else Placeholder)).

(** *** One iteration of the frame loop of [renderOffline], up to the capture.
    [bgSource]: a background image or video was loaded; [albumImage]: the
    album image was pre-loaded. *)
Definition renderOfflineFrame
    (currentConfig : Config.VisualizerConfig)
    (currentEffects : Effects.EffectConfig)
    (currentIntensities : Intensities.EffectIntensities)
    (currentTexts : list Config.TextLayer)
    (bgSource albumImage : bool) (time : Q) (dataArray : list Z) : Draw unit :=
  let width := 1920%Z in
  let height := 1080%Z in
  let centerX := inject_Z width / 2 in
  let centerY := inject_Z height / 2 in
  let timeDomain := offlineTimeDomain dataArray time in
  let lv := offlineLevels dataArray in
  let bass := bass lv in
  let normBass := normBass lv in
  let pulse := pulse lv in
  let primary := Config.primaryColor currentConfig in
  let secondary := Config.secondaryColor currentConfig in
  (emit (ClearFrame width height) ;;
   when bgSource
     (shake <- (if Effects.shake currentEffects
                   && Qgt_bool normBass (0.6 - Intensities.shake currentIntensities * 0.3)
                then v <- shakeVector (Intensities.shake currentIntensities * 50) normBass ;;
                     ret (Some v)
                else ret None) ;;
      emit (DrawBackground (1 - Config.bgDim currentConfig) shake
                           (1 + Math_sin (time * 0.5) * 0.05))) ;;
   when (Effects.shake currentEffects && Qgt_bool normBass 0.6)
     (v <- shakeVector (Intensities.shake currentIntensities * 30) normBass ;;
      emit (ShakePreset (fst v) (snd v))) ;;
   match Config.preset currentConfig with
   | Config.NCS_Circle =>
       emit (DrawPreset (drawNCSCircle centerX centerY dataArray pulse time primary secondary))
   | Config.Linear_Bars =>
       emit (DrawPreset (drawLinearBars width height dataArray primary secondary))
   | Config.Dual_Mirror =>
       emit (DrawPreset (drawDualMirror width height dataArray primary))
   | Config.Center_Wave =>
       emit (DrawPreset (drawCenterWave centerX centerY dataArray time primary))
   | Config.Orbital =>
       emit (DrawPreset (drawOrbital centerX centerY dataArray time primary secondary))
   | Config.Hexagon =>
       emit (DrawPreset (drawHexagon centerX centerY dataArray pulse time primary))
   | Config.Oscilloscope =>
       emit (DrawPreset (drawOscilloscope width height timeDomain primary))
   | Config.Digital_Rain => drawDigitalRain width height dataArray time primary
   | Config.Shockwave =>
       emit (DrawPreset (drawShockwave centerX centerY bass time primary))
   | Config.Minimal => ret tt
   end ;;
   Particles.drawParticles width height time bass
     (Config.particleCount currentConfig) primary ;;
   when (hasAlbumArt (Config.preset currentConfig) && albumImage)
     (emit (DrawAlbumArt pulse primary AlbumImage)) ;;
   when (Effects.pixelate currentEffects)
     (let pixelSize := Z.max 4 (Math_floor (16 * Intensities.pixelate currentIntensities)) in
      let smallW := Math_floor (inject_Z width / inject_Z pixelSize) in
      let smallH := Math_floor (inject_Z height / inject_Z pixelSize) in
      emit (Pixelate pixelSize smallW smallH)) ;;
   forEach currentTexts (fun layer =>
     let dynamicSize :=
       if String.eqb (Config.id layer) "1"
          && Config.PresetType_eqb (Config.preset currentConfig) Config.Minimal
       then Config.size layer * pulse else Config.size layer in
     let xPos := (Config.x layer / 100) * inject_Z width in
     let yPos := (Config.y layer / 100) * inject_Z height in
     emit (DrawText (Config.color layer) dynamicSize (Config.font layer)
                    (Config.text layer) xPos yPos)) ;;
   when (Effects.scanlines currentEffects || Effects.cctv currentEffects)
     (emit (Scanlines (Intensities.scanlines currentIntensities * 0.8))) ;;
   shift <- (if Effects.vhs currentEffects || Effects.chromatic currentEffects
             then ret true else glitchTriggered currentEffects currentIntensities) ;;
   when shift
     (let intensity := if Effects.vhs currentEffects
                       then Intensities.vhs currentIntensities
                       else Intensities.chromatic currentIntensities in
      let offset := (10 * intensity) * normBass in
      emit (ColorShift intensity offset)) ;;
   block <- glitchTriggered currentEffects currentIntensities ;;
   when block
     (c <- random ;;
      bx <- random ;;
      by_ <- random ;;
      bw <- random ;;
      emit (GlitchBlock (if Qgt_bool c 0.5 then primary else "#fff")
                        (bx * inject_Z width) (by_ * inject_Z height) (bw * 200))) ;;
   when (Effects.cctv currentEffects)
     (emit (CctvTint (Intensities.cctv currentIntensities))) ;;
   when (Effects.bloom currentEffects)
     (emit (Bloom (Intensities.bloom currentIntensities))) ;;
   when (Effects.filmGrain currentEffects)
     (first <- randomBurst (strideCount (width * height * 4) 16) ;;
      emit (FilmGrain 16 (Intensities.filmGrain currentIntensities * 50) first)) ;;
   when (Effects.strobe currentEffects
         && Qgt_bool normBass (0.7 - Intensities.strobe currentIntensities * 0.3))
     (emit (Strobe (Intensities.strobe currentIntensities * normBass * 0.8))) ;;
   when (Effects.vignette currentEffects)
     (emit (Vignette (Intensities.vignette currentIntensities))) ;;
   when (Effects.hueShift currentEffects)
     (emit (HueShift (Intensities.hueShift currentIntensities * 360 * (1 + normBass * 0.5)))) ;;
   when (Effects.letterbox currentEffects)
     (emit (Letterbox (inject_Z height * 0.12 * Intensities.letterbox currentIntensities))))%draw.

(** *** One pass of [renderLoop], up to the request of the next animation
    frame.  [width], [height]: the size of the preview canvas; [dataArray],
    [timeDomain]: what the analyser returned; [bgSource]: a ready background
    video or a loaded background image exists; [preloadedImage]: the custom
    album image is loaded and complete; [urlImageComplete]: the image created
    from the album URL is complete at once. *)
Definition renderLoopFrame
    (currentConfig : Config.VisualizerConfig)
    (currentEffects : Effects.EffectConfig)
    (currentIntensities : Intensities.EffectIntensities)
    (currentTexts : list Config.TextLayer)
    (width height : Z) (bgSource preloadedImage urlImageComplete : bool)
    (time : Q) (dataArray timeDomain : list Z) : Draw unit :=
  let centerX := inject_Z width / 2 in
  let centerY := inject_Z height / 2 in
  let lv := liveLevels dataArray in
  let bass := bass lv in
  let normBass := normBass lv in
  let pulse := pulse lv in
  let primary := Config.primaryColor currentConfig in
  let secondary := Config.secondaryColor currentConfig in
  (emit (ClearFrame width height) ;;
   when bgSource
     (shake <- (if Effects.shake currentEffects
                   && Qgt_bool normBass (0.6 - Intensities.shake currentIntensities * 0.3)
                then v <- shakeVector (Intensities.shake currentIntensities * 50) normBass ;;
                     ret (Some v)
                else ret None) ;;
      emit (DrawBackground (1 - Config.bgDim currentConfig) shake
                           (1 + Math_sin (time * 0.5) * 0.05))) ;;
   when (Effects.shake currentEffects && Qgt_bool normBass 0.6)
     (v <- shakeVector (Intensities.shake currentIntensities * 30) normBass ;;
      emit (ShakePreset (fst v) (snd v))) ;;
   match Config.preset currentConfig with
   | Config.NCS_Circle =>
       emit (DrawPreset (drawNCSCircle centerX centerY dataArray pulse time primary secondary))
   | Config.Linear_Bars =>
       emit (DrawPreset (drawLinearBars width height dataArray primary secondary))
   | Config.Dual_Mirror =>
       emit (DrawPreset (drawDualMirror width height dataArray primary))
   | Config.Center_Wave =>
       emit (DrawPreset (drawCenterWave centerX centerY dataArray time primary))
   | Config.Orbital =>
       emit (DrawPreset (drawOrbital centerX centerY dataArray time primary secondary))
   | Config.Hexagon =>
       emit (DrawPreset (drawHexagon centerX centerY dataArray pulse time primary))
   | Config.Oscilloscope =>
       emit (DrawPreset (drawOscilloscope width height timeDomain primary))
   | Config.Digital_Rain => drawDigitalRain width height dataArray time primary
   | Config.Shockwave =>
       emit (DrawPreset (drawShockwave centerX centerY bass time primary))
   | Config.Minimal => ret tt
   end ;;
   Particles.drawParticles width height time bass
     (Config.particleCount currentConfig) primary ;;
   when (hasAlbumArt (Config.preset currentConfig))
     (drawAlbumArt pulse primary preloadedImage urlImageComplete) ;;
   when (Effects.pixelate currentEffects)
     (let pixelSize := Z.max 4 (Math_floor (16 * Intensities.pixelate currentIntensities)) in
      let smallW := Math_floor (inject_Z width / inject_Z pixelSize) in
      let smallH := Math_floor (inject_Z height / inject_Z pixelSize) in
      emit (Pixelate pixelSize smallW smallH)) ;;
   forEach currentTexts (fun layer =>
     let dynamicSize :=
       if String.eqb (Config.id layer) "1"
          && Config.PresetType_eqb (Config.preset currentConfig) Config.Minimal
       then Config.size layer * pulse else Config.size layer in
     let xPos := (Config.x layer / 100) * inject_Z width in
     let yPos := (Config.y layer / 100) * inject_Z height in
     emit (DrawText (Config.color layer) dynamicSize (Config.font layer)
                    (Config.text layer) xPos yPos)) ;;
   when (Effects.scanlines currentEffects || Effects.cctv currentEffects)
     (emit (Scanlines (Intensities.scanlines currentIntensities * 0.8))) ;;
   shift <- (if Effects.vhs currentEffects || Effects.chromatic currentEffects
             then ret true else glitchTriggered currentEffects currentIntensities) ;;
   when shift
     (let intensity := if Effects.vhs currentEffects
                       then Intensities.vhs currentIntensities
                       else Intensities.chromatic currentIntensities in
      let offset := (10 * intensity) * normBass in
      emit (ColorShift intensity offset)) ;;
   slices <- glitchTriggered currentEffects currentIntensities ;;
   when slices
     (sh <- random ;;
      sy <- random ;;
      so <- random ;;
      emit (GlitchSlice (sh * 50) (sy * inject_Z height)
                        ((so - 0.5) * 40 * Intensities.glitch currentIntensities)) ;;
      c <- random ;;
      bx <- random ;;
      by_ <- random ;;
      bw <- random ;;
      emit (GlitchBlock (if Qgt_bool c 0.5 then primary else "#fff")
                        (bx * inject_Z width) (by_ * inject_Z height) (bw * 200))) ;;
   when (Effects.cctv currentEffects)
     (emit (CctvTint (Intensities.cctv currentIntensities)) ;;
      emit CctvDateStamp ;;
      emit CctvRec) ;;
   when (Effects.bloom currentEffects)
     (emit (Bloom (Intensities.bloom currentIntensities))) ;;
   when (Effects.filmGrain currentEffects)
     (first <- randomBurst (strideCount (width * height * 4) 4) ;;
      emit (FilmGrain 4 (Intensities.filmGrain currentIntensities * 50) first)) ;;
   when (Effects.strobe currentEffects
         && Qgt_bool normBass (0.7 - Intensities.strobe currentIntensities * 0.3))
     (emit (Strobe (Intensities.strobe currentIntensities * normBass * 0.8))) ;;
   when (Effects.vignette currentEffects)
     (emit (Vignette (Intensities.vignette currentIntensities))) ;;
   when (Effects.hueShift currentEffects)
     (emit (HueShift (Intensities.hueShift currentIntensities * 360 * (1 + normBass * 0.5)))) ;;
   when (Effects.letterbox currentEffects)
     (emit (Letterbox (inject_Z height * 0.12 * Intensities.letterbox currentIntensities))))%draw.

(** The steps a computation draws on an empty canvas, with [Math.random]
    returning [source] from its call number [calls] on. *)
Definition drawn (source : nat -> Q) (calls : nat) (c : Draw unit) : list Op :=
  canvas (snd (c (mkWorld source calls []))).

End WithMath.



End Render.

(** ** The export job: [startRecording] and [renderOffline] *)

Module ExportJob.
Import JS Canvas.

Inductive ExportStage := idle | capturing | encoding.

(** The string the state variable holds. *)
Definition stageName (s : ExportStage) : string :=
  match s with
  | idle => "idle"
  | capturing => "capturing"
  | encoding => "encoding"
  end.

Definition ExportStage_eqb (a b : ExportStage) : bool :=
  match a, b with
  | idle, idle | capturing, capturing | encoding, encoding => true
  | _, _ => false
  end.

Inductive File := FrameJpg (frameIndex : Z) | AudioMp3 | OutputMp4.

(** What a run does to the component state, the encoder and the page. *)
Inductive Event :=
| SetIsExporting (b : bool)
| SetExportStage (s : ExportStage)
| SetExportProgress (p : Z)
| WriteFrame (frameIndex : Z) (frame : list Op)
| WriteAudio
| Exec (framerate : Z)
| ReadOutput
| Download (fileName : string)
| DeleteFile (f : File)
| CloseAudioContext
| ConsoleError (message : string)
| Alert (message : string)
| HideProgressLater.

(** The four refs the render code reads ([configRef], [effectsRef],
    [intensitiesRef], [textLayersRef]).  The component replaces the values,
    it never mutates them in place. *)
Record Refs := mkRefs {
  configRef : Config.VisualizerConfig;
  effectsRef : Effects.EffectConfig;
  intensitiesRef : Intensities.EffectIntensities;
  textLayersRef : list Config.TextLayer
}.

(** The encoder object: its ['progress'] listener tests the [exportStage] of
    the render in which [loadFFmpeg] was created. *)
Record FFmpeg := mkFFmpeg { listenerStage : ExportStage }.

Definition loadFFmpeg (exportStage : ExportStage) : FFmpeg := mkFFmpeg exportStage.

Inductive Background := NoBackground | BackgroundImage | BackgroundVideo.

(** Everything outside the code one click on "Export Video" depends on.
    [refsAt n]: the content of the refs once [n] awaited operations have
    completed (the user interface may change them whenever the job waits). *)
Record Session := mkSession {
  songTitle : string;
  exportStage : ExportStage;
  ffmpegRef : option FFmpeg;
  encoderLoads : bool;
  background : Background;
  albumArt : bool;
  decoded : option Spectrum.AudioBuffer;
  encoderProgress : list Q;
  outputLength : Z;
  randomValues : nat -> Q;
  refsAt : nat -> Refs
}.

Record JobState := mkJob {
  awaited : nat;          (* awaited operations completed so far *)
  randomUsed : nat;       (* calls of [Math.random] so far *)
  log : list Event        (* oldest first *)
}.

Inductive Outcome (A : Type) :=
| Returned (a : A)
| Thrown (error : string).
Arguments Returned {A} a.
Arguments Thrown {A} error.

Definition Job (A : Type) : Type := JobState -> Outcome A * JobState.

Definition ret {A} (a : A) : Job A := fun js => (Returned a, js).

Definition bind {A B} (c : Job A) (k : A -> Job B) : Job B :=
  fun js =>
    match c js with
    | (Returned a, js') => k a js'
    | (Thrown e, js') => (Thrown e, js')
    end.

Definition throw {A} (error : string) : Job A := fun js => (Thrown error, js).

Definition tryCatch {A} (c : Job A) (handler : string -> Job A) : Job A :=
  fun js =>
    match c js with
    | (Returned a, js') => (Returned a, js')
    | (Thrown e, js') => handler e js'
    end.

Definition say (e : Event) : Job unit :=
  fun js => (Returned tt, mkJob (awaited js) (randomUsed js) (log js ++ [e])).

Definition await : Job unit :=
  fun js => (Returned tt, mkJob (S (awaited js)) (randomUsed js) (log js)).

Definition when (b : bool) (c : Job unit) : Job unit := if b then c else ret tt.

Fixpoint forEach {A} (l : list A) (body : A -> Job unit) : Job unit :=
  match l with
  | [] => ret tt
  | a :: l' => bind (body a) (fun _ => forEach l' body)
  end.

(** The steps one frame draws on the export canvas (a frame starts by
    filling the whole canvas, so its capture depends on these steps only). *)
Definition paint (source : nat -> Q) (c : Draw unit) : Job (list Op) :=
  fun js =>
    let w := snd (c (mkWorld source (randomUsed js) [])) in
    (Returned (canvas w), mkJob (awaited js) (randomCalls w) (log js)).

Definition readRefs (sess : Session) : Job Refs :=
  fun js => (Returned (refsAt sess (awaited js)), js).

Definition setExportProgress (p : Z) : Job unit := say (SetExportProgress p).

End ExportJob.

Declare Scope job_scope.
Delimit Scope job_scope with job.
Notation "x <- c ;; k" := (ExportJob.bind c (fun x => k))
  (at level 61, c at next level, right associativity) : job_scope.
Notation "c ;; k" := (ExportJob.bind c (fun _ => k))
  (at level 61, right associativity) : job_scope.

Module Pipeline.
Import JS Canvas ExportJob.

Definition fps : Z := 30.

(** The ['progress'] listener registered by [loadFFmpeg]. *)
Definition onProgress (ff : FFmpeg) (progress : Q) : Job unit :=
  if ExportStage_eqb (listenerStage ff) encoding
  then setExportProgress (Math_round (progress * 100))
  else ret tt.

(** [`${song.title || 'suno-video'}.mp4`] *)
Definition downloadName (title : string) : string :=
  ((if String.eqb title "" then "suno-video" else title) ++ ".mp4")%string.

(** Pre-loading of the background: one awaited load for a video, a fetch
    through the proxy and a load for an image. *)
Definition loadBackground (sess : Session) : Job unit :=
  match background sess with
  | BackgroundVideo => await
  | BackgroundImage => (await ;; await)%job
  | NoBackground => ret tt
  end.

Definition loadAlbumArt (sess : Session) : Job unit :=
  if albumArt sess then (await ;; await)%job else ret tt.

Definition decodeAudioData (sess : Session) : Job Spectrum.AudioBuffer :=
  (await ;;
   match decoded sess with
   | Some audioBuffer => ret audioBuffer
   | None => throw "Unable to decode audio data"
   end)%job.

(** [frequencyDataFrames[frameIndex] || new Uint8Array(1024)] *)
Definition frameSpectrum (frequencyDataFrames : list (list Z)) (frameIndex : Z) : list Z :=
  match nth_error frequencyDataFrames (Z.to_nat frameIndex) with
  | Some dataArray => dataArray
  | None => repeat 0 1024
  end.

Section WithMath.
Context {M : MathLib}.

(** One iteration of the frame loop. *)
Definition captureFrame (sess : Session) (snapshot : Refs) (totalFrames : Z)
    (frequencyDataFrames : list (list Z)) (frameIndex : Z) : Job unit :=
  let time := (inject_Z frameIndex / inject_Z fps)%Q in
  let dataArray := frameSpectrum frequencyDataFrames frameIndex in
  let bgVideo := match background sess with BackgroundVideo => true | _ => false end in
  let bgSource := match background sess with NoBackground => false | _ => true end in
  (when bgVideo await ;;
   frame <- paint (randomValues sess)
              (Render.renderOfflineFrame (configRef snapshot) (effectsRef snapshot)
                 (intensitiesRef snapshot) (textLayersRef snapshot)
                 bgSource (albumArt sess) time dataArray) ;;
   say (WriteFrame frameIndex frame) ;;
   await ;;
   when (frameIndex mod 10 =? 0)
     (setExportProgress
        (15 + Math_round (inject_Z frameIndex / inject_Z totalFrames * 55))))%job.

(** State after one iteration of the frame loop. *)
Definition afterFrame (sess : Session) (snapshot : Refs) (totalFrames : Z)
    (frequencyDataFrames : list (list Z)) (frameIndex : Z) (js : JobState) : JobState :=
  snd (captureFrame sess snapshot totalFrames frequencyDataFrames frameIndex js).

(** [renderOffline] from the read of the refs to its end: the frame loop,
    the encoding, the download and the cleanup. *)
Definition renderFrames (ff : FFmpeg) (sess : Session) (totalFrames : Z)
    (frequencyDataFrames : list (list Z)) : Job unit :=
  (snapshot <- readRefs sess ;;
   forEach (range totalFrames)
     (captureFrame sess snapshot totalFrames frequencyDataFrames) ;;
   say (SetExportStage encoding) ;;
   setExportProgress 70 ;;
   say WriteAudio ;;
   await ;;
   setExportProgress 75 ;;
   say (Exec fps) ;;
   forEach (encoderProgress sess) (onProgress ff) ;;
   await ;;
   setExportProgress 95 ;;
   say ReadOutput ;;
   await ;;
   (if outputLength sess =? 0
    then throw "FFmpeg produced an empty output file"
    else ret tt) ;;
   say (Download (downloadName (songTitle sess))) ;;
   setExportProgress 98 ;;
   forEach (range totalFrames) (fun i => say (DeleteFile (FrameJpg i)) ;; await) ;;
   say (DeleteFile AudioMp3) ;;
   await ;;
   say (DeleteFile OutputMp4) ;;
   await ;;
   say CloseAudioContext ;;
   await ;;
   setExportProgress 100 ;;
   say HideProgressLater)%job.

Definition renderOffline (ff : FFmpeg) (sess : Session) : Job unit :=
  (setExportProgress 1 ;;
   loadBackground sess ;;
   loadAlbumArt sess ;;
   setExportProgress 2 ;;
   await ;;
   await ;;
   setExportProgress 5 ;;
   audioBuffer <- decodeAudioData sess ;;
   let totalFrames := Spectrum.totalFrames audioBuffer fps in
   setExportProgress 10 ;;
   let frequencyDataFrames := Spectrum.analyzeAudioOffline audioBuffer fps in
   setExportProgress 15 ;;
   renderFrames ff sess totalFrames frequencyDataFrames)%job.

(** How a click ended: the encoder could not be loaded, [renderOffline]
    threw, or it returned. *)
Inductive ExportResult := NotStarted | Failed (error : string) | Completed.

(** [startRecording], for a click with a song and a mounted canvas. *)

Definition startRecording (sess : Session) : Job ExportResult :=
  (ff <- match ffmpegRef sess with
         | Some ff => ret (Some ff)
         | None =>
             await ;;
             if encoderLoads sess
             then ret (Some (loadFFmpeg (exportStage sess)))
             else (say (ConsoleError "Failed to load FFmpeg") ;;
                   say (Alert "Failed to load video encoder. Please refresh and try again.") ;;
                   ret None)
         end ;;
   match ff with
   | None => ret NotStarted
   | Some ff =>
       say (SetIsExporting true) ;;
       say (SetExportStage capturing) ;;
       setExportProgress 0 ;;
       tryCatch (renderOffline ff sess ;; ret Completed)
         (fun error =>
            say (ConsoleError ("Rendering failed: " ++ error)) ;;
            say (Alert "Video rendering failed. Please try again.") ;;
            say (SetIsExporting false) ;;
            say (SetExportStage idle) ;;
            ret (Failed error))
   end)%job.

(** A run from the click, and what it leaves behind. *)
Definition run (sess : Session) : Outcome ExportResult * JobState :=
  startRecording sess (mkJob 0 0 []).

Definition result (sess : Session) : option ExportResult :=
  match fst (run sess) with
  | Returned r => Some r
  | Thrown _ => None
  end.

Definition events (sess : Session) : list Event := log (snd (run sess)).

End WithMath.

(** *** Reading a log *)

Definition progressOf (l : list Event) : list Z :=
  flat_map (fun e => match e with SetExportProgress p => [p] | _ => [] end) l.

Definition framesOf (l : list Event) : list (Z * list Op) :=
  flat_map (fun e => match e with WriteFrame i f => [(i, f)] | _ => [] end) l.

Definition downloadsOf (l : list Event) : list string :=
  flat_map (fun e => match e with Download n => [n] | _ => [] end) l.

Definition alertsOf (l : list Event) : list string :=
  flat_map (fun e => match e with Alert m => [m] | _ => [] end) l.

Definition consoleOf (l : list Event) : list string :=
  flat_map (fun e => match e with ConsoleError m => [m] | _ => [] end) l.

(** The value of [exportStage] after the events of [l] (the timer of
    [HideProgressLater] having fired). *)
Definition stageAfter (s : ExportStage) (l : list Event) : ExportStage :=
  fold_left (fun s e =>
    match e with
    | SetExportStage s' => s'
    | HideProgressLater => idle
    | _ => s
    end) l s.

Definition exportingAfter (b : bool) (l : list Event) : bool :=
  fold_left (fun b e =>
    match e with
    | SetIsExporting b' => b'
    | HideProgressLater => false
    | _ => b
    end) l b.

(** Progress reported by the frame loop: after the first captured frame and
    before the stage changes to [encoding]. *)
Fixpoint loopProgress (inLoop : bool) (l : list Event) : list Z :=
  match l with
  | [] => []
  | WriteFrame _ _ :: l' => loopProgress true l'
  | SetExportStage encoding :: l' => loopProgress false l'
  | SetExportProgress p :: l' =>
      if inLoop then p :: loopProgress inLoop l' else loopProgress inLoop l'
  | _ :: l' => loopProgress inLoop l'
  end.

(** [needle] occurs in [s]. *)
Definition contains (needle s : string) : bool :=
  match String.index 0 needle s with Some _ => true | None => false end.

Fixpoint nondecreasing (l : list Z) : Prop :=
  match l with
  | a :: (b :: _) as l' => a <= b /\ nondecreasing l'
  | _ => True
  end.

(** [lo <= x1 <= x2 <= ... <= xn <= hi] *)
Fixpoint Between (lo hi : Z) (l : list Z) : Prop :=
  match l with
  | [] => lo <= hi
  | x :: l' => lo <= x /\ Between x hi l'
  end.

(** The encoder a click ends up with: the loaded one, or one loaded now. *)
Definition encoder (sess : Session) : option FFmpeg :=
  match ffmpegRef sess with
  | Some ff => Some ff
  | None => if encoderLoads sess then Some (loadFFmpeg (exportStage sess)) else None
  end.

(** The state in which the interface offers "Export Video": no export is
    running, and an encoder, if loaded, was loaded in that state. *)
Definition Ready (sess : Session) : Prop :=
  exportStage sess = idle
  /\ forall ff, ffmpegRef sess = Some ff -> listenerStage ff = idle.

(** The same click with the refs changing along another schedule. *)
Definition withRefs (sess : Session) (refs : nat -> Refs) : Session :=
  mkSession (songTitle sess) (exportStage sess) (ffmpegRef sess)
            (encoderLoads sess) (background sess) (albumArt sess) (decoded sess)
            (encoderProgress sess) (outputLength sess) (randomValues sess) refs.

(** Awaited operations of [renderOffline] before it reads the refs: the
    media loads, the fetch, the body read and the decoding. *)
Definition setupAwaits (sess : Session) : nat :=
  (match background sess with
   | BackgroundVideo => 1 | BackgroundImage => 2 | NoBackground => 0
   end
   + (if albumArt sess then 2 else 0)
   + 3)%nat.

(** Awaited operations completed, since the click, when [renderOffline]
    reads the refs (the encoder is loaded first when there is none). *)
Definition snapshotTick (sess : Session) : nat :=
  (setupAwaits sess + match ffmpegRef sess with Some _ => 0 | None => 1 end)%nat.

(** An event without the pixels of a captured frame. *)
Definition forget (e : Event) : Event :=
  match e with
  | WriteFrame i _ => WriteFrame i []
  | _ => e
  end.

(** Progress the frame loop reports at [frameIndex]. *)
Definition report (totalFrames frameIndex : Z) : list Z :=
  if frameIndex mod 10 =? 0
  then [15 + Math_round (inject_Z frameIndex / inject_Z totalFrames * 55)]
  else [].

Definition frameShape (totalFrames frameIndex : Z) : list Event :=
  WriteFrame frameIndex [] :: map SetExportProgress (report totalFrames frameIndex).

Definition setupShape : list Event :=
  [SetIsExporting true; SetExportStage capturing; SetExportProgress 0;
   SetExportProgress 1; SetExportProgress 2; SetExportProgress 5].

Definition encodeShape : list Event :=
  [SetExportStage encoding; SetExportProgress 70; WriteAudio;
   SetExportProgress 75; Exec fps; SetExportProgress 95; ReadOutput].

Definition finishShape (sess : Session) (totalFrames : Z) : list Event :=
  [Download (downloadName (songTitle sess)); SetExportProgress 98]
  ++ map (fun i => DeleteFile (FrameJpg i)) (range totalFrames)
  ++ [DeleteFile AudioMp3; DeleteFile OutputMp4; CloseAudioContext;
      SetExportProgress 100; HideProgressLater].

Definition failureShape (error : string) : list Event :=
  [ConsoleError ("Rendering failed: " ++ error);
   Alert "Video rendering failed. Please try again.";
   SetIsExporting false; SetExportStage idle].

End Pipeline.

(** ** Sample inputs *)

Module Samples.
Import Config.

Definition config : VisualizerConfig :=
  mkConfig NCS_Circle "#ec4899" "#3b82f6" 0.6 50.

Definition minimalConfig : VisualizerConfig :=
  mkConfig Minimal "#ec4899" "#3b82f6" 0.6 0.


Definition texts : list TextLayer :=
  [ mkTextLayer "1" "Song" 50 85 52 "#ffffff" "Inter";
    mkTextLayer "2" "STYLE" 50 92 24 "#3b82f6" "Inter" ].

Definition glitchOnly : Effects.EffectConfig :=
  Effects.mkEffects false true false false false false false false false false
                    false false false.

Definition fullGlitch : Intensities.EffectIntensities :=
  Intensities.mkIntensities 0.05 1 0.5 0.8 0.4 0.5 0.5 0.3 0.3 0.5 0.5 0.5 0.5.

Definition quietFrame : list Z := repeat 0%Z 1024.

(** [Math.random] returning one half every time. *)
Definition halves : nat -> Q := fun _ => 0.5%Q.

Definition refs : ExportJob.Refs :=
  ExportJob.mkRefs config Effects.none Intensities.initial texts.

Definition editedRefs : ExportJob.Refs :=
  ExportJob.mkRefs minimalConfig Effects.none Intensities.initial texts.

(** 1600 samples at 48 kHz: a clip of one frame at 30 fps. *)
Definition shortClip : Spectrum.AudioBuffer :=
  Spectrum.mkAudioBuffer 48000 (repeat 0.125%Q 1600).

(** A click with the encoder loaded, no media, a one-frame clip, and an
    encoder that reports progress and returns a file of [outputLength]
    bytes. *)
Definition session (outputLength : Z) (refsAt : nat -> ExportJob.Refs)
    : ExportJob.Session :=
  ExportJob.mkSession "Song" ExportJob.idle
    (Some (ExportJob.loadFFmpeg ExportJob.idle)) true ExportJob.NoBackground
    false (Some shortClip) [0.5%Q; 1%Q] outputLength halves refsAt.

(** The refs are replaced while the audio is being fetched. *)
Definition editDuringFetch (n : nat) : ExportJob.Refs :=
  match n with O => refs | _ => editedRefs end.

(** The refs are replaced while the first frame is being written. *)
Definition editDuringCapture (n : nat) : ExportJob.Refs :=
  if (n <=? 3)%nat then refs else editedRefs.

(** The job state at the click. *)
Definition atClick : ExportJob.JobState := ExportJob.mkJob 0 0 [].

End Samples.

(** ** Further readings of a run, and further sample inputs *)

Module Cleanup.
Import ExportJob Pipeline.

(** Files removed from the encoder's file system. *)
Definition deletedOf (l : list Event) : list File :=
  flat_map (fun e => match e with DeleteFile f => [f] | _ => [] end) l.

(** Calls made to the encoder other than writing and deleting frames. *)
Definition encoderCallsOf (l : list Event) : list Event :=
  flat_map (fun e => match e with
                     | WriteAudio | Exec _ | ReadOutput => [e]
                     | _ => []
                     end) l.

Definition audioContextClosed (l : list Event) : bool :=
  existsb (fun e => match e with CloseAudioContext => true | _ => false end) l.

(** The same click with the encoder firing other progress callbacks. *)
Definition withProgress (sess : Session) (ticks : list Q) : Session :=
  mkSession (songTitle sess) (exportStage sess) (ffmpegRef sess)
            (encoderLoads sess) (background sess) (albumArt sess) (decoded sess)
            ticks (outputLength sess) (randomValues sess) (refsAt sess).

End Cleanup.

Module MoreSamples.

(** 2100 samples at 48 kHz: two frames at 30 fps, the second one with a
    window of 500 samples. *)
Definition tailBuffer : Spectrum.AudioBuffer :=
  Spectrum.mkAudioBuffer 48000 (repeat 0.25%Q 2100).

(** A click on a song whose audio does not decode. *)
Definition undecodable : ExportJob.Session :=
  ExportJob.mkSession "Song" ExportJob.idle
    (Some (ExportJob.loadFFmpeg ExportJob.idle)) true ExportJob.BackgroundImage
    true None [] 0 Samples.halves (fun _ => Samples.refs).


End MoreSamples.

(** ** Reading a frame *)

Module FrameReading.
Import JS Canvas.

(** Position of a drawing step in the per-frame pipeline. *)
Definition rank (op : Op) : Z :=
  match op with
  | ClearFrame _ _ => 0
  | DrawBackground _ _ _ => 1
  | ShakePreset _ _ => 2
  | DrawPreset _ | RainGlyph _ _ _ _ => 3
  | ParticleFill _ => 4
  | DrawAlbumArt _ _ _ => 5
  | Pixelate _ _ _ => 6
  | DrawText _ _ _ _ _ _ => 7
  | Scanlines _ => 8
  | ColorShift _ _ => 9
  | GlitchSlice _ _ _ => 10
  | GlitchBlock _ _ _ _ => 11
  | CctvTint _ => 12
  | CctvDateStamp => 13
  | CctvRec => 14
  | Bloom _ => 15
  | FilmGrain _ _ _ => 16
  | Strobe _ => 17
  | Vignette _ => 18
  | HueShift _ => 19
  | Letterbox _ => 20
  end.

(** [c] appends steps whose ranks rise from [lo] to [hi]. *)
Definition Staged (lo hi : Z) {A} (c : Draw A) : Prop :=
  forall world, exists added,
    canvas (snd (c world)) = canvas world ++ added
    /\ Pipeline.Between lo hi (map rank added).






(** Steps only the live preview has. *)
Definition liveOnly (op : Op) : bool :=
  match op with
  | GlitchSlice _ _ _ | CctvDateStamp | CctvRec
  | DrawAlbumArt _ _ Placeholder => true
  | _ => false
  end.

(** A pixelate step works on a grid of whole cells of 4 to 16 pixels. *)
Definition pixelGrid (width height : Z) (op : Op) : Prop :=
  match op with
  | Pixelate pixelSize smallW smallH =>
      4 <= pixelSize <= 16
      /\ smallW = width / pixelSize /\ smallH = height / pixelSize
  | _ => True
  end.

(** No part of the frame asks for [Math.random]: camera shake, glitch and
    film grain are off and the preset is not the glyph rain. *)
Definition randomFree (cfg : Config.VisualizerConfig) (eff : Effects.EffectConfig)
    : bool :=
  negb (Effects.shake eff) && negb (Effects.glitch eff)
  && negb (Effects.filmGrain eff)
  && negb (Config.PresetType_eqb (Config.preset cfg) Config.Digital_Rain).

(** A drawable arc: [ctx.arc] accepts the radius, and the alpha is one the
    context keeps. *)
Definition drawable (arc : ParticleArc) : Prop :=
  (0 < arcRadius arc /\ 0 <= globalAlpha arc <= 1)%Q.

End FrameReading.

(** ** Text layers: [addTextLayer], [updateTextLayer], [removeTextLayer] *)

Module TextLayers.
Import Config.

(** [Partial<TextLayer>]: the keys an update carries. *)
Record Updates := mkUpdates {
  newId : option string;
  newText : option string;
  newX : option Q;
  newY : option Q;
  newSize : option Q;
  newColor : option string;
  newFont : option string
}.

Definition override {A} (old : A) (new : option A) : A :=
  match new with Some a => a | None => old end.

(** [{ ...l, ...updates }] *)
Definition spread (l : TextLayer) (updates : Updates) : TextLayer :=
  mkTextLayer (override (id l) (newId updates))
              (override (text l) (newText updates))
              (override (x l) (newX updates))
              (override (y l) (newY updates))
              (override (size l) (newSize updates))
              (override (color l) (newColor updates))
              (override (font l) (newFont updates)).

(** [now] is [Date.now().toString()]. *)
Definition addTextLayer (now : string) (textLayers : list TextLayer)
    : list TextLayer :=
  let newLayer := mkTextLayer now "New Text" 50 50 40 "#ffffff" "Inter" in
  textLayers ++ [newLayer].

Definition updateTextLayer (textLayers : list TextLayer) (id' : string)
    (updates : Updates) : list TextLayer :=
  map (fun l => if String.eqb (id l) id' then spread l updates else l) textLayers.

Definition removeTextLayer (textLayers : list TextLayer) (id' : string)
    : list TextLayer :=
  filter (fun l => negb (String.eqb (id l) id')) textLayers.

(** The updates the text panel sends: one of text, size, colour, x, y. *)
Definition setText (s : string) : Updates :=
  mkUpdates None (Some s) None None None None None.

Definition setX (v : Q) : Updates :=
  mkUpdates None None (Some v) None None None None.

End TextLayers.

(** ** Stock video choice: [selectPexelsVideo] *)

Module Pexels.

Record VideoFile := mkVideoFile { link : string; quality : string; width : Z }.

Inductive BackgroundType := random | custom | video.

(** The state [selectPexelsVideo] writes. *)
Record Picker := mkPicker {
  videoUrl : string;
  backgroundType : BackgroundType;
  showPexelsBrowser : bool
}.





End Pexels.

Module BoundedMath.
Import JS.
Local Open Scope Q_scope.

Definition clamp (x : Q) : Q := Qmax (-1) (Qmin 1 x).

(** The coarse instance with sine and cosine kept within [-1, 1]. *)
Definition clampedMath : MathLib :=
  mkMath (fun x => clamp (x - x * x * x / 6))
         (fun x => clamp (1 - x * x / 2))
         (fun x _ => x)
         3.14159.

End BoundedMath.

Module StockSamples.

(** The files of a stock video: a small HD rendition first, then SD, then
    full HD. *)
Definition renditions : list Pexels.VideoFile :=
  [ Pexels.mkVideoFile "https://videos.example/960.mp4" "hd" 960;
    Pexels.mkVideoFile "https://videos.example/640.mp4" "sd" 640;
    Pexels.mkVideoFile "https://videos.example/1920.mp4" "hd" 1920 ].

Definition picker : Pexels.Picker := Pexels.mkPicker "" Pexels.random true.

End StockSamples.

(** ** The frames of an export *)

Module ExportFrames.
Import JS Canvas ExportJob Pipeline.

Section WithMath.
Context {M : MathLib}.



End WithMath.
End ExportFrames.

(** * Properties *)

(** ** Arithmetic and list facts used throughout *)

Section NumericFacts.
Import JS.

Lemma Qfloor_div_Z (a b : Z) :
  0 < b -> Qfloor (inject_Z a / inject_Z b) = a / b.
Proof.
  intros Hb. destruct b as [|b|b]; try lia.
  unfold Qdiv, Qinv, Qmult, inject_Z; simpl.
  now rewrite Z.mul_1_r.
Qed.

Lemma trunc_inject_Z (z : Z) : trunc (inject_Z z) = z.
Proof.
  unfold trunc. destruct (Qle_bool 0 (inject_Z z)).
  - apply Qfloor_Z.
  - apply Qceiling_Z.
Qed.

Lemma ToUint8_byte (z : Z) : 0 <= z <= 255 -> ToUint8 (inject_Z z) = z.
Proof.
  intros H. unfold ToUint8. rewrite trunc_inject_Z.
  apply Z.mod_small. lia.
Qed.

Lemma range_length (n : Z) : length (range n) = Z.to_nat n.
Proof. unfold range. now rewrite length_map, length_seq. Qed.

Lemma range_In (n x : Z) : In x (range n) <-> 0 <= x < n.
Proof.
  unfold range. rewrite in_map_iff. split.
  - intros [k [<- Hk]]. apply in_seq in Hk. lia.
  - intros H. exists (Z.to_nat x). split; [lia|]. apply in_seq. lia.
Qed.

Lemma range_nth (n i d : Z) :
  0 <= i < n -> nth (Z.to_nat i) (range n) d = i.
Proof.
  intros H. unfold range.
  rewrite nth_indep with (d' := Z.of_nat 0)
    by (rewrite length_map, length_seq; lia).
  rewrite map_nth, seq_nth by lia. lia.
Qed.

Lemma nth_map_range {A} (f : Z -> A) (n i : Z) (d : A) :
  0 <= i < n -> nth (Z.to_nat i) (map f (range n)) d = f i.
Proof.
  intros H.
  rewrite nth_indep with (d' := f 0)
    by (rewrite length_map, range_length; lia).
  rewrite map_nth. f_equal. now apply range_nth.
Qed.

Lemma skipn_cons_nth {A} (d : A) : forall (l : list A) (n : nat),
  (n < length l)%nat -> skipn n l = nth n l d :: skipn (S n) l.
Proof.
  induction l as [|a l IH]; intros [|n] H; simpl in *; try lia; auto.
  apply IH. lia.
Qed.

Lemma slice_empty {A} (l : list A) (lo hi : Z) : hi <= lo -> slice l lo hi = [].
Proof.
  intros H. unfold slice. replace (Z.to_nat (hi - lo)) with O by lia.
  reflexivity.
Qed.

Lemma slice_cons {A} (d : A) (l : list A) (lo hi : Z) :
  0 <= lo -> lo < hi -> lo < Z.of_nat (length l) ->
  slice l lo hi = nth (Z.to_nat lo) l d :: slice l (lo + 1) hi.
Proof.
  intros H0 H1 H2. unfold slice.
  rewrite (skipn_cons_nth d) by lia.
  replace (Z.to_nat (hi - lo)) with (S (Z.to_nat (hi - (lo + 1)))) by lia.
  replace (Z.to_nat (lo + 1)) with (S (Z.to_nat lo)) by lia.
  reflexivity.
Qed.

Lemma Qsum_abs_nonneg (l : list Q) : (0 <= Qsum (map Qabs l))%Q.
Proof.
  induction l as [|a l IH]; simpl.
  - apply Qle_refl.
  - pose proof (Qabs_nonneg a). lra.
Qed.

End NumericFacts.

(** ** The offline spectrum provider *)

Section SpectrumFacts.
Import JS Spectrum.

(** The accumulation loop adds up the absolute values of the samples with
    indices in [[i, binEnd)]; [binEnd - i] iterations are enough. *)
Lemma sumLoop_slice (data : list Q) : forall (fuel : nat) (i binEnd : Z) (sum : Q),
  0 <= i -> binEnd <= len data -> (Z.to_nat (binEnd - i) <= fuel)%nat ->
  (sumLoop data fuel i binEnd sum == sum + Qsum (map Qabs (slice data i binEnd)))%Q.
Proof.
  induction fuel as [|fuel IH]; intros i binEnd sum Hi Hend Hfuel; simpl.
  - rewrite slice_empty by lia. simpl. lra.
  - destruct (Z.ltb_spec i binEnd) as [Hlt|Hge]; simpl.
    + destruct (Z.ltb_spec i (len data)) as [Hlt'|Hge']; [|lia].
      rewrite IH by lia.
      rewrite (slice_cons 0%Q) with (lo := i) by (unfold len in *; lia).
      simpl. unfold sampleAt. lra.
    + rewrite slice_empty by lia. simpl. lra.
Qed.

Lemma sumLoop_nonneg (data : list Q) : forall (fuel : nat) (i binEnd : Z) (sum : Q),
  (0 <= sum)%Q -> (0 <= sumLoop data fuel i binEnd sum)%Q.
Proof.
  induction fuel as [|fuel IH]; intros i binEnd sum Hs; simpl; auto.
  destruct ((i <? binEnd) && (i <? len data)); auto.
  apply IH. pose proof (Qabs_nonneg (sampleAt data i)). lra.
Qed.

Lemma binSize_pos (d : Z) :
  1 <= Z.max 1 (Math_floor (inject_Z d / inject_Z frequencyBinCount)).
Proof. lia. Qed.

Lemma scaled_byte (sum : Q) (binSize : Z) :
  (0 <= sum)%Q -> 1 <= binSize ->
  0 <= Z.min 255 (Math_floor (sum / inject_Z binSize * 512)) <= 255.
Proof.
  intros Hs Hb. split; [|lia]. apply Z.min_glb; [lia|].
  unfold Math_floor. rewrite <- (Qfloor_Z 0). apply Qfloor_resp_le.
  apply Qmult_le_0_compat; [|discriminate].
  apply Qle_shift_div_l.
  - change 0%Q with (inject_Z 0). rewrite <- Zlt_Qlt. lia.
  - lra.
Qed.

(** Every stored bin is a byte: the scaled average is clamped to 255 and is
    never negative, so the [Uint8Array] store does not wrap. *)
Lemma binValue_byte (data : list Q) (startSample endSample bin : Z) :
  0 <= binValue data startSample endSample bin <= 255.
Proof.
  unfold binValue.
  set (binSize := Z.max 1 _).
  assert (Hb : 1 <= binSize) by apply binSize_pos.
  set (sum := sumLoop _ _ _ _ _).
  assert (Hs : (0 <= sum)%Q) by (apply sumLoop_nonneg; apply Qle_refl).
  destruct (Z.ltb_spec 0 binSize) as [_|]; [|lia].
  pose proof (scaled_byte sum binSize Hs Hb) as Hv.
  rewrite ToUint8_byte by exact Hv. exact Hv.
Qed.

Lemma frameData_length (data : list Q) (spf frame : Z) :
  length (frameData data spf frame) = 1024%nat.
Proof. unfold frameData. now rewrite length_map, range_length. Qed.

Lemma frameData_bytes (data : list Q) (spf frame : Z) :
  Forall (fun v => 0 <= v <= 255) (frameData data spf frame).
Proof.
  unfold frameData. apply Forall_forall. intros v Hv.
  apply in_map_iff in Hv. destruct Hv as [bin [<- _]].
  apply binValue_byte.
Qed.

Lemma analyzeAudioOffline_length (b : AudioBuffer) (fps : Z) :
  length (analyzeAudioOffline b fps) = Z.to_nat (totalFrames b fps).
Proof. unfold analyzeAudioOffline. now rewrite length_map, range_length. Qed.

Lemma analyzeAudioOffline_frames (b : AudioBuffer) (fps : Z) :
  Forall (fun f => length f = 1024%nat /\ Forall (fun v => 0 <= v <= 255) f)
         (analyzeAudioOffline b fps).
Proof.
  unfold analyzeAudioOffline. apply Forall_forall. intros f Hf.
  apply in_map_iff in Hf. destruct Hf as [frame [<- _]]. split.
  - apply frameData_length.
  - apply frameData_bytes.
Qed.

(** Closed form of one stored bin, for a window that starts inside the
    buffer. *)
Lemma binValue_slice (data : list Q) (startSample endSample bin : Z) :
  0 <= startSample -> 0 <= bin -> endSample <= len data ->
  let binSize := Z.max 1 ((endSample - startSample) / 1024) in
  let lo := startSample + bin * binSize in
  let hi := Z.min (lo + binSize) endSample in
  binValue data startSample endSample bin =
  Z.min 255 (Qfloor (Qsum (map Qabs (slice data lo hi)) / inject_Z binSize * 512)).
Proof.
  intros Hs Hbin Hend binSize lo hi. unfold binValue.
  unfold Math_floor at 1. rewrite Qfloor_div_Z by reflexivity.
  change frequencyBinCount with 1024. fold binSize. fold lo. fold hi.
  assert (Hb : 1 <= binSize) by (subst binSize; lia).
  destruct (Z.ltb_spec 0 binSize) as [_|]; [|lia].
  set (sum := sumLoop _ _ _ _ _).
  assert (Hsum : (sum == Qsum (map Qabs (slice data lo hi)))%Q).
  { subst sum. rewrite sumLoop_slice; [lra| | |]; subst lo hi; nia. }
  rewrite ToUint8_byte
    by (apply scaled_byte; [apply sumLoop_nonneg; apply Qle_refl | exact Hb]).
  unfold Math_floor. f_equal. apply Qfloor_comp. now rewrite Hsum.
Qed.

Lemma totalFrames_start (b : AudioBuffer) (fps frame : Z) :
  0 < sampleRate b -> 0 < fps -> 0 <= frame < totalFrames b fps ->
  0 <= frame * (sampleRate b / fps).
Proof.
  intros Hsr Hfps Hf. apply Z.mul_nonneg_nonneg; [lia|].
  apply Z.div_pos; lia.
Qed.

(** C1 (as the code has it).  A frame's window is the 2048 samples that
    start at [frame * floor(sampleRate/fps)], cut at the end of the buffer;
    it is divided into sub-bins of [max(1, floor(windowLength/1024))]
    samples, and bin [bin] holds [min(255, floor(sum|sample| / binSize * 512))]
    over the samples of its sub-bin that lie in the window.  When the whole
    window lies in the buffer a sub-bin has two samples and the value is
    [min(255, floor(mean(|sample|) * 512))] over these two. *)
Theorem analyzeAudioOffline_bin (b : AudioBuffer) (fps frame bin : Z) :
  0 < sampleRate b -> 0 < fps ->
  0 <= frame < totalFrames b fps -> 0 <= bin < 1024 ->
  let data := channelData b in
  let startSample := frame * (sampleRate b / fps) in
  let endSample := Z.min (startSample + 2048) (len data) in
  let binSize := Z.max 1 ((endSample - startSample) / 1024) in
  let lo := startSample + bin * binSize in
  let hi := Z.min (lo + binSize) endSample in
  let value :=
    nth (Z.to_nat bin) (nth (Z.to_nat frame) (analyzeAudioOffline b fps) []) 0 in
  value = Z.min 255 (Qfloor (Qsum (map Qabs (slice data lo hi)) / inject_Z binSize * 512))
  /\ (startSample + 2048 <= len data ->
      value = Z.min 255 (Qfloor (mean (map Qabs
                (slice data (startSample + 2 * bin) (startSample + 2 * bin + 2))) * 512))).
Proof.
  intros Hsr Hfps Hframe Hbin data startSample endSample binSize lo hi value.
  pose proof (totalFrames_start b fps frame Hsr Hfps Hframe) as Hstart.
  fold startSample in Hstart.
  assert (Hvalue : value =
    Z.min 255 (Qfloor (Qsum (map Qabs (slice data lo hi)) / inject_Z binSize * 512))).
  { subst value. unfold analyzeAudioOffline.
    rewrite nth_map_range by exact Hframe.
    unfold frameData. rewrite nth_map_range by exact Hbin.
    unfold samplesPerFrame, Math_floor. rewrite Qfloor_div_Z by exact Hfps.
    fold data. fold startSample. change fftSize with 2048. fold endSample.
    apply binValue_slice; subst endSample; lia. }
  split; [exact Hvalue|].
  intros Hfull. rewrite Hvalue.
  assert (HbinSize : binSize = 2).
  { subst binSize endSample. rewrite Z.min_l by lia.
    replace (startSample + 2048 - startSample) with 2048 by lia. reflexivity. }
  subst lo hi. rewrite HbinSize.
  replace (Z.min (startSample + bin * 2 + 2) endSample)
    with (startSample + 2 * bin + 2) by (subst endSample; lia).
  replace (startSample + bin * 2) with (startSample + 2 * bin) by lia.
  set (i := startSample + 2 * bin).
  unfold len in Hfull.
  rewrite (slice_cons 0%Q) by lia.
  rewrite (slice_cons 0%Q) by lia.
  rewrite slice_empty by lia.
  reflexivity.
Qed.

Lemma analyzeAudioOffline_bin_witness :
  nth 1000 (nth 0 (analyzeAudioOffline overlapBuffer 30) []) 0
  = Z.min 255 (Qfloor (Qsum (map Qabs (slice (channelData overlapBuffer) 2000 2002))
                       / inject_Z 2 * 512)).
Proof.
  apply (analyzeAudioOffline_bin overlapBuffer 30 0 1000); vm_compute;
    repeat split; discriminate.
Defined.

(** C1 (as worded): the stored frames are those of the description that
    cuts the buffer into consecutive [sampleRate/fps]-sample windows.
    Refuted at 48 kHz and 30 fps on a buffer whose only non-zero sample is
    sample 2000: it lies in the second 1600-sample window, so the description
    leaves frame 0 silent, while the code's frame 0 reads 2048 samples and
    stores 64 in bin 1000. *)
Lemma analyzeAudioOffline_not_spec :
  ~ (forall (b : AudioBuffer) (fps : Z),
        0 < sampleRate b -> 0 < fps ->
        analyzeAudioOffline b fps = specAnalyze b fps).
Proof.
  intros H. specialize (H overlapBuffer 30 eq_refl eq_refl).
  apply (f_equal (fun frames => nth 1000 (nth 0 frames []) 0)) in H.
  vm_compute in H. discriminate.
Qed.

(** C9.  A 10-second buffer at 44.1 kHz analysed at 30 fps gives exactly
    300 frames, each of 1024 bins with values in [0, 255]. *)
Theorem analyzeAudioOffline_10s (b : AudioBuffer) :
  sampleRate b = 44100 -> (duration b == 10)%Q ->
  let frames := analyzeAudioOffline b 30 in
  length frames = 300%nat
  /\ Forall (fun f => length f = 1024%nat /\ Forall (fun v => 0 <= v <= 255) f) frames.
Proof.
  intros Hsr Hdur frames. split.
  - subst frames. rewrite analyzeAudioOffline_length.
    unfold totalFrames, Math_ceil.
    rewrite (Qceiling_comp _ (10 * inject_Z 30)) by now rewrite Hdur.
    reflexivity.
  - apply analyzeAudioOffline_frames.
Qed.

Lemma analyzeAudioOffline_10s_witness :
  let frames := analyzeAudioOffline tenSecondsOfSilence 30 in
  length frames = 300%nat
  /\ Forall (fun f => length f = 1024%nat /\ Forall (fun v => 0 <= v <= 255) f) frames.
Proof.
  apply (analyzeAudioOffline_10s tenSecondsOfSilence); vm_compute; reflexivity.
Defined.

End SpectrumFacts.

(** ** Bass level and pulse factor *)

Section LevelFacts.
Import JS Render.

Lemma fold_left_Qsum {A} (f : A -> Q) : forall (l : list A) (a : Q),
  (fold_left (fun acc i => acc + f i) l a == a + Qsum (map f l))%Q.
Proof.
  induction l as [|x l IH]; intros a; simpl.
  - lra.
  - rewrite IH. lra.
Qed.

Lemma map_nth_seq {A} (d : A) (l : list A) : forall (n s : nat),
  (s + n <= length l)%nat ->
  map (fun k => nth k l d) (seq s n) = firstn n (skipn s l).
Proof.
  induction n as [|n IH]; intros s H; simpl.
  - reflexivity.
  - rewrite (skipn_cons_nth d) by lia. simpl. f_equal.
    apply IH. lia.
Qed.

Lemma bins_firstn (dataArray : list Z) (n : nat) :
  (n <= length dataArray)%nat ->
  map (binAt dataArray) (range (Z.of_nat n)) = map inject_Z (firstn n dataArray).
Proof.
  intros H. unfold range, binAt. rewrite map_map, Nat2Z.id.
  assert (Hn : map (fun k => nth k dataArray 0) (seq 0 n) = firstn n dataArray)
    by (apply (map_nth_seq 0 dataArray n 0%nat); lia).
  rewrite <- Hn, map_map. apply map_ext. intros k. now rewrite Nat2Z.id.
Qed.

Lemma bassSum_firstn (dataArray : list Z) :
  (20 <= length dataArray)%nat ->
  (bassSum dataArray == Qsum (map inject_Z (firstn 20 dataArray)))%Q.
Proof.
  intros H. unfold bassSum. rewrite fold_left_Qsum.
  change 20 with (Z.of_nat 20). rewrite bins_firstn by exact H. lra.
Qed.

Lemma Qsum_bytes (l : list Z) :
  Forall (fun v => 0 <= v <= 255) l ->
  (0 <= Qsum (map inject_Z l) <= 255 * inject_Z (Z.of_nat (length l)))%Q.
Proof.
  induction 1 as [|v l Hv _ IH].
  - split; discriminate.
  - cbn [map Qsum fold_right length]. rewrite Nat2Z.inj_succ.
    unfold Z.succ. rewrite inject_Z_plus.
    assert (0 <= inject_Z v <= 255)%Q.
    { split.
      - change 0%Q with (inject_Z 0). rewrite <- Zle_Qle. lia.
      - change 255%Q with (inject_Z 255). rewrite <- Zle_Qle. lia. }
    fold (Qsum (map inject_Z l)). change (inject_Z 1) with 1%Q. lra.
Qed.

Lemma mean_20 (l : list Q) :
  length l = 20%nat -> (mean l == Qsum l / 20)%Q.
Proof.
  intros H. destruct l as [|a l]; [discriminate|].
  unfold mean. rewrite H. reflexivity.
Qed.

(** C8.  For a frame whose bins are bytes, the live and the offline renderer
    both take [bass] to be the mean of bins 0..19, [normBass = bass / 255]
    lies in [0, 1] and [pulse = 1 + normBass * 0.15] lies in [1, 1.15]. *)
Theorem bass_levels (dataArray : list Z) (lv : Levels) :
  (20 <= length dataArray)%nat ->
  Forall (fun v => 0 <= v <= 255) dataArray ->
  In lv [offlineLevels dataArray; liveLevels dataArray] ->
  (bass lv == mean (map inject_Z (firstn 20 dataArray)))%Q
  /\ (normBass lv == bass lv / 255)%Q
  /\ (0 <= normBass lv <= 1)%Q
  /\ (pulse lv == 1 + normBass lv * 0.15)%Q
  /\ (1 <= pulse lv <= 1.15)%Q.
Proof.
  intros Hlen Hbytes Hlv.
  assert (Hfirst : length (firstn 20 dataArray) = 20%nat)
    by (rewrite length_firstn; lia).
  assert (Hmean : (mean (map inject_Z (firstn 20 dataArray))
                   == bassSum dataArray / 20)%Q).
  { rewrite mean_20 by (now rewrite length_map).
    now rewrite bassSum_firstn by exact Hlen. }
  assert (Hsum : (0 <= bassSum dataArray <= 5100)%Q).
  { rewrite bassSum_firstn by exact Hlen.
    pose proof (Qsum_bytes (firstn 20 dataArray)) as Hb.
    rewrite Hfirst in Hb.
    assert (Forall (fun v => 0 <= v <= 255) (firstn 20 dataArray))
      by (rewrite Forall_forall in *; intros v Hv; apply Hbytes;
          rewrite <- (firstn_skipn 20 dataArray); apply in_or_app; now left).
    specialize (Hb H). change (inject_Z (Z.of_nat 20)) with 20%Q in Hb. lra. }
  assert (Hlv' : lv = offlineLevels dataArray).
  { destruct Hlv as [<-|[<-|[]]]; reflexivity. }
  subst lv. unfold offlineLevels. cbn [bass normBass pulse].
  rewrite Hmean.
  set (s := bassSum dataArray) in *.
  repeat split; try reflexivity.
  - apply Qle_shift_div_l; [reflexivity|]. apply Qle_shift_div_l; [reflexivity|]. lra.
  - apply Qle_shift_div_r; [reflexivity|]. apply Qle_shift_div_r; [reflexivity|]. lra.
  - assert (0 <= s / 20 / 255)%Q
      by (apply Qle_shift_div_l; [reflexivity|]; apply Qle_shift_div_l; [reflexivity|]; lra).
    lra.
  - assert (s / 20 / 255 <= 1)%Q
      by (apply Qle_shift_div_r; [reflexivity|]; apply Qle_shift_div_r; [reflexivity|]; lra).
    lra.
Qed.

Lemma bass_levels_witness :
  (0 <= normBass (liveLevels fullScaleFrame) <= 1)%Q
  /\ (1 <= pulse (liveLevels fullScaleFrame) <= 1.15)%Q.
Proof.
  assert (Hlen : (20 <= length fullScaleFrame)%nat)
    by (unfold fullScaleFrame; rewrite repeat_length; lia).
  assert (Hbytes : Forall (fun v => 0 <= v <= 255) fullScaleFrame)
    by (apply Forall_forall; intros v Hv; apply repeat_spec in Hv; lia).
  destruct (bass_levels fullScaleFrame (liveLevels fullScaleFrame) Hlen Hbytes)
    as (_ & _ & Hn & _ & Hp).
  - right. left. reflexivity.
  - split; assumption.
Defined.

End LevelFacts.

(** ** The particle system *)

Section ParticleFacts.
Import JS Canvas.
Context {M : MathLib}.

Lemma forEach_emit {A} (f : A -> Op) : forall (l : list A) (world : World),
  forEach l (fun a => emit (f a)) world
  = (tt, mkWorld (randomSource world) (randomCalls world) (canvas world ++ map f l)).
Proof.
  induction l as [|a l IH]; intros world; simpl.
  - rewrite app_nil_r. now destruct world.
  - unfold bind. cbn [emit]. rewrite IH. cbn. now rewrite <- app_assoc.
Qed.

Lemma forEach_emit_some {A} (g : A -> option ParticleArc) :
  forall (l : list A) (world : World),
  forEach l (fun a => match g a with
                      | Some arc => emit (ParticleFill arc)
                      | None => ret tt
                      end) world
  = (tt, mkWorld (randomSource world) (randomCalls world)
           (canvas world
            ++ map ParticleFill
                 (flat_map (fun a => match g a with Some arc => [arc] | None => [] end) l))).
Proof.
  induction l as [|a l IH]; intros world; simpl.
  - rewrite app_nil_r. now destruct world.
  - unfold bind. destruct (g a).
    + cbn [emit]. rewrite IH. cbn. now rewrite <- app_assoc.
    + cbn [ret]. rewrite IH. reflexivity.
Qed.

(** One call of [drawParticles] appends the particles of
    [Particles.particles], each a function of the arguments and of its own
    index, and never calls [Math.random]. *)
Lemma drawParticles_run (w h : Z) (time bass : Q) (count : Z) (color : string)
    (world : World) :
  Particles.drawParticles w h time bass count color world
  = (tt, mkWorld (randomSource world) (randomCalls world)
           (canvas world
            ++ map ParticleFill (Particles.particles w h time bass count color))).
Proof.
  unfold Particles.drawParticles, Particles.particles, bind.
  rewrite forEach_emit. rewrite forEach_emit_some. rewrite forEach_emit.
  rewrite forEach_emit. cbn [randomSource randomCalls canvas].
  now rewrite !map_app, <- !app_assoc, !map_map.
Qed.

(** C7.  Two calls of the particle system with the same arguments draw the
    same particles (positions, sizes, alphas, in all four sub-populations),
    whatever was drawn before and whatever [Math.random] would return: the
    particles are those of [Particles.particles], computed from the arguments
    and the index alone, and no random number is consumed. *)
Theorem drawParticles_index_seeded (w h : Z) (time bass : Q) (count : Z)
    (color : string) (world1 world2 : World) :
  let drawn1 := snd (Particles.drawParticles w h time bass count color world1) in
  let drawn2 := snd (Particles.drawParticles w h time bass count color world2) in
  let arcs := map ParticleFill (Particles.particles w h time bass count color) in
  canvas drawn1 = canvas world1 ++ arcs
  /\ canvas drawn2 = canvas world2 ++ arcs
  /\ randomCalls drawn1 = randomCalls world1
  /\ randomCalls drawn2 = randomCalls world2.
Proof.
  cbv zeta. rewrite !drawParticles_run. cbn. repeat split.
Qed.

End ParticleFacts.

(** ** The per-frame pipeline with every effect off *)

Section CompositorFacts.
Import JS Canvas Render.
Context {M : MathLib}.

Lemma OnlyDraws_ret (P : Op -> Prop) {A} (a : A) : OnlyDraws P (ret a).
Proof. intros world. exists []. cbn. now rewrite app_nil_r. Qed.

Lemma OnlyDraws_emit (P : Op -> Prop) (op : Op) : P op -> OnlyDraws P (emit op).
Proof. intros H world. exists [op]. cbn. split; [reflexivity|]. now constructor. Qed.

Lemma OnlyDraws_random (P : Op -> Prop) : OnlyDraws P random.
Proof. intros world. exists []. cbn. now rewrite app_nil_r. Qed.

Lemma OnlyDraws_bind (P : Op -> Prop) {A B} (c : Draw A) (k : A -> Draw B) :
  OnlyDraws P c -> (forall a, OnlyDraws P (k a)) -> OnlyDraws P (bind c k).
Proof.
  intros Hc Hk world. unfold bind.
  destruct (Hc world) as [added1 [E1 F1]].
  destruct (c world) as [a world1]. cbn [snd] in E1.
  destruct (Hk a world1) as [added2 [E2 F2]].
  exists (added1 ++ added2). split.
  - rewrite E2, E1. now rewrite app_assoc.
  - apply Forall_app. now split.
Qed.

Lemma OnlyDraws_when (P : Op -> Prop) (b : bool) (c : Draw unit) :
  OnlyDraws P c -> OnlyDraws P (when b c).
Proof. destruct b; cbn; [trivial|intros _; apply OnlyDraws_ret]. Qed.

Lemma OnlyDraws_forEach (P : Op -> Prop) {A} (body : A -> Draw unit) :
  (forall a, OnlyDraws P (body a)) -> forall l, OnlyDraws P (forEach l body).
Proof.
  intros Hb. induction l as [|a l IH]; cbn.
  - apply OnlyDraws_ret.
  - apply OnlyDraws_bind; [apply Hb | intros _; exact IH].
Qed.

Lemma OnlyDraws_particles (P : Op -> Prop) (w h : Z) (time bass : Q)
    (count : Z) (color : string) :
  (forall arc, P (ParticleFill arc)) ->
  OnlyDraws P (Particles.drawParticles w h time bass count color).
Proof.
  intros HP world. rewrite drawParticles_run. cbn [snd canvas].
  eexists. split; [reflexivity|].
  apply Forall_forall. intros op Hop. apply in_map_iff in Hop.
  destruct Hop as [arc [<- _]]. apply HP.
Qed.

Lemma OnlyDraws_rain (P : Op -> Prop) (w h : Z) (data : list Z) (time : Q)
    (color : string) :
  (forall c x y a, P (RainGlyph c x y a)) ->
  OnlyDraws P (drawDigitalRain w h data time color).
Proof.
  intros HP. unfold drawDigitalRain.
  apply OnlyDraws_forEach. intros i.
  apply OnlyDraws_forEach. intros j.
  apply OnlyDraws_bind; [apply OnlyDraws_random|].
  intros r. apply OnlyDraws_emit. apply HP.
Qed.

Lemma OnlyDraws_drawn (P : Op -> Prop) (c : Draw unit) (source : nat -> Q)
    (calls : nat) :
  OnlyDraws P c -> Forall P (drawn source calls c).
Proof.
  intros H. unfold drawn.
  destruct (H (mkWorld source calls [])) as [added [E F]].
  rewrite E. exact F.
Qed.

Ltac only_draws :=
  repeat first
    [ apply OnlyDraws_particles; intros; reflexivity
    | apply OnlyDraws_rain; intros; reflexivity
    | apply OnlyDraws_emit; reflexivity
    | apply OnlyDraws_ret
    | apply OnlyDraws_when
    | apply OnlyDraws_forEach; intros ?
    | apply OnlyDraws_bind; [|intros ?] ].

Ltac effects_off eff H :=
  destruct eff; unfold Effects.allOff in H; cbn in H;
  destruct H as (? & ? & ? & ? & ? & ? & ? & ? & ? & ? & ? & ? & ?); subst.

Lemma renderOfflineFrame_base
    (cfg : Config.VisualizerConfig) (eff : Effects.EffectConfig)
    (ints : Intensities.EffectIntensities) (texts : list Config.TextLayer)
    (bgSource albumImage : bool) (time : Q) (dataArray : list Z) :
  Effects.allOff eff ->
  OnlyDraws (fun op => baseStep op = true)
    (renderOfflineFrame cfg eff ints texts bgSource albumImage time dataArray).
Proof.
  intros H. effects_off eff H.
  unfold renderOfflineFrame, glitchTriggered.
  cbn [Effects.shake Effects.glitch Effects.vhs Effects.cctv Effects.scanlines
       Effects.chromatic Effects.bloom Effects.filmGrain Effects.pixelate
       Effects.strobe Effects.vignette Effects.hueShift Effects.letterbox
       andb orb].
  destruct (Config.preset cfg); only_draws.
Qed.

Lemma renderLoopFrame_base
    (cfg : Config.VisualizerConfig) (eff : Effects.EffectConfig)
    (ints : Intensities.EffectIntensities) (texts : list Config.TextLayer)
    (width height : Z) (bgSource preloadedImage urlImageComplete : bool)
    (time : Q) (dataArray timeDomain : list Z) :
  Effects.allOff eff ->
  OnlyDraws (fun op => baseStep op = true)
    (renderLoopFrame cfg eff ints texts width height bgSource preloadedImage
       urlImageComplete time dataArray timeDomain).
Proof.
  intros H. effects_off eff H.
  unfold renderLoopFrame, glitchTriggered, drawAlbumArt.
  cbn [Effects.shake Effects.glitch Effects.vhs Effects.cctv Effects.scanlines
       Effects.chromatic Effects.bloom Effects.filmGrain Effects.pixelate
       Effects.strobe Effects.vignette Effects.hueShift Effects.letterbox
       andb orb].
  destruct (Config.preset cfg); only_draws.
Qed.

(** C6.  When all thirteen toggles are off, every step of a frame, offline
    and live, belongs to the background (clear included), the preset, the
    particles, the album-art inlay or the text layers, and is drawn without
    shake: no post-processing step touches the frame. *)
Theorem effects_off_base_only
    (cfg : Config.VisualizerConfig) (eff : Effects.EffectConfig)
    (ints : Intensities.EffectIntensities) (texts : list Config.TextLayer)
    (width height : Z) (bgSource albumImage preloadedImage urlImageComplete : bool)
    (time : Q) (dataArray timeDomain : list Z) (source : nat -> Q) (calls : nat) :
  Effects.allOff eff ->
  Forall (fun op => baseStep op = true)
    (drawn source calls
       (renderOfflineFrame cfg eff ints texts bgSource albumImage time dataArray))
  /\ Forall (fun op => baseStep op = true)
       (drawn source calls
          (renderLoopFrame cfg eff ints texts width height bgSource preloadedImage
             urlImageComplete time dataArray timeDomain)).
Proof.
  intros H. split; apply OnlyDraws_drawn.
  - now apply renderOfflineFrame_base.
  - now apply renderLoopFrame_base.
Qed.

End CompositorFacts.

(** ** Live preview against offline export, frame by frame *)

Section CorrespondenceFacts.
Import JS Canvas Render.
Context {M : MathLib}.
Variable E : Op -> list Op.


Lemma Corr_ret (s : bool) {A} (a : A) : Corr E s s (ret a) (ret a).
Proof. intros w1 w2 H. cbn. now split. Qed.


Lemma Corr_emit (s : bool) (op1 op2 : Op) :
  E op1 = E op2 -> Corr E s s (emit op1) (emit op2).
Proof.
  intros H w1 w2 [R1 R2]. unfold emit.
  split; [reflexivity|]. split; cbn [fst snd canvas randomSource randomCalls].
  - rewrite !flat_map_app. cbn [flat_map]. now rewrite R1, H.
  - exact R2.
Qed.



Lemma Corr_bind (s mid s' : bool) {A B} (c1 c2 : Draw A) (k1 k2 : A -> Draw B) :
  Corr E s mid c1 c2 -> (forall a, Corr E mid s' (k1 a) (k2 a)) ->
  Corr E s s' (bind c1 k1) (bind c2 k2).
Proof.
  intros Hc Hk w1 w2 R. unfold bind.
  destruct (Hc w1 w2 R) as [Ha R'].
  destruct (c1 w1) as [a1 w1'], (c2 w2) as [a2 w2']. cbn in Ha, R'. subst a2.
  now apply Hk.
Qed.

Lemma Corr_when (s : bool) (b : bool) (c1 c2 : Draw unit) :
  Corr E s s c1 c2 -> Corr E s s (when b c1) (when b c2).
Proof. destruct b; cbn; [trivial|intros _; apply Corr_ret]. Qed.

Lemma Corr_forEach (s : bool) {A} (f g : A -> Draw unit) :
  (forall a, Corr E s s (f a) (g a)) ->
  forall l, Corr E s s (forEach l f) (forEach l g).
Proof.
  intros H. induction l as [|a l IH]; cbn.
  - apply Corr_ret.
  - apply Corr_bind with (mid := s); [apply H | intros _; exact IH].
Qed.

Lemma Corr_particles (s : bool) (w h : Z) (time bass : Q) (count : Z)
    (color : string) :
  Corr E s s (Particles.drawParticles w h time bass count color)
             (Particles.drawParticles w h time bass count color).
Proof.
  intros w1 w2 [R1 R2]. rewrite !drawParticles_run.
  split; [reflexivity|]. split; cbn [fst snd canvas randomSource randomCalls];
    [|exact R2].
  rewrite !flat_map_app. now rewrite R1.
Qed.




End CorrespondenceFacts.

Section RendererComparison.
Import JS Canvas Render.
Context {M : MathLib}.

Lemma Corr_bind_ret (E : Op -> list Op) (s s' : bool) {A B} (a : A)
    (k1 k2 : A -> Draw B) :
  Corr E s s' (k1 a) (k2 a) -> Corr E s s' (bind (ret a) k1) (bind (ret a) k2).
Proof. intros H w1 w2 R. exact (H w1 w2 R). Qed.






End RendererComparison.

Section RendererExamples.
Import JS Canvas Render.

Lemma effects_off_base_only_witness :
  Forall (fun op => baseStep op = true)
    (drawn Samples.halves 0
       (renderOfflineFrame (M := coarseMath) Samples.config Effects.none
          Intensities.initial Samples.texts true true 0%Q fullScaleFrame))
  /\ Forall (fun op => baseStep op = true)
       (drawn Samples.halves 0
          (renderLoopFrame (M := coarseMath) Samples.config Effects.none
             Intensities.initial Samples.texts 1920 1080 true true false 0%Q
             fullScaleFrame fullScaleFrame)).
Proof.
  apply (effects_off_base_only (M := coarseMath) Samples.config Effects.none
           Intensities.initial Samples.texts 1920 1080 true true true false 0%Q
           fullScaleFrame fullScaleFrame Samples.halves 0).
  unfold Effects.allOff. cbn. repeat split.
Defined.



(** The glitch stage of the two renderers: when it fires, the preview
    redraws a shifted slice of the frame before the coloured block, the
    export draws the block only. *)
Lemma glitch_slice_live_only :
  let live :=
    drawn Samples.halves 0
      (renderLoopFrame (M := coarseMath) Samples.minimalConfig Samples.glitchOnly
         Samples.fullGlitch [] 1920 1080 false false false 0%Q
         Samples.quietFrame Samples.quietFrame) in
  let offline :=
    drawn Samples.halves 0
      (renderOfflineFrame (M := coarseMath) Samples.minimalConfig Samples.glitchOnly
         Samples.fullGlitch [] false false 0%Q Samples.quietFrame) in
  existsb (fun op => match op with GlitchSlice _ _ _ => true | _ => false end) live = true
  /\ existsb (fun op => match op with GlitchSlice _ _ _ => true | _ => false end) offline = false
  /\ existsb (fun op => match op with GlitchBlock _ _ _ _ => true | _ => false end) offline = true.
Proof. vm_compute. repeat split. Qed.

End RendererExamples.


(** ** The export job *)

Section JobFacts.
Import JS Canvas ExportJob Pipeline.

(** A loop whose body always returns runs to its end. *)
Lemma forEach_total {A} (body : A -> Job unit) (next : A -> JobState -> JobState) :
  (forall a js, body a js = (Returned tt, next a js)) ->
  forall l js,
    forEach l body js = (Returned tt, fold_left (fun js a => next a js) l js).
Proof.
  intros Hbody. induction l as [|a l IH]; intros js; cbn [forEach fold_left].
  - reflexivity.
  - unfold bind. rewrite Hbody. apply IH.
Qed.

Lemma forEach_ext {A} (f g : A -> Job unit) :
  (forall a js, f a js = g a js) ->
  forall l js, forEach l f js = forEach l g js.
Proof.
  intros H. induction l as [|a l IH]; intros js; cbn [forEach].
  - reflexivity.
  - unfold bind. rewrite H. destruct (g a js) as [[[]|e] js']; [apply IH|reflexivity].
Qed.

Lemma fold_left_log {A} (next : A -> JobState -> JobState) (added : A -> list Event) :
  (forall a js, map forget (log (next a js)) = map forget (log js) ++ added a) ->
  forall l js,
    map forget (log (fold_left (fun js a => next a js) l js))
    = map forget (log js) ++ flat_map added l.
Proof.
  intros H. induction l as [|a l IH]; intros js; cbn [fold_left flat_map].
  - now rewrite app_nil_r.
  - rewrite IH, H. now rewrite <- app_assoc.
Qed.

(** The listener of an encoder loaded outside the encoding stage stays silent. *)
Lemma listener_silent (ff : FFmpeg) (ticks : list Q) (js : JobState) :
  listenerStage ff <> encoding ->
  forEach ticks (onProgress ff) js = (Returned tt, js).
Proof.
  intros H.
  rewrite (forEach_total (onProgress ff) (fun _ js => js)).
  - f_equal. induction ticks as [|t ticks IH]; cbn [fold_left]; auto.
  - intros a js0. unfold onProgress.
    destruct (listenerStage ff); cbn [ExportStage_eqb]; try reflexivity.
    now contradiction H.
Qed.

Section WithMath.
Context {M : MathLib}.

Lemma captureFrame_returns (sess : Session) (snapshot : Refs) (totalFrames : Z)
    (frames : list (list Z)) (frameIndex : Z) (js : JobState) :
  captureFrame sess snapshot totalFrames frames frameIndex js
  = (Returned tt, afterFrame sess snapshot totalFrames frames frameIndex js).
Proof.
  unfold afterFrame, captureFrame, bind, paint, say, await, when, setExportProgress, say, ret.
  destruct (background sess); destruct (frameIndex mod 10 =? 0); reflexivity.
Qed.

Lemma afterFrame_log (sess : Session) (snapshot : Refs) (totalFrames : Z)
    (frames : list (list Z)) (frameIndex : Z) (js : JobState) :
  map forget (log (afterFrame sess snapshot totalFrames frames frameIndex js))
  = map forget (log js) ++ frameShape totalFrames frameIndex.
Proof.
  unfold afterFrame, captureFrame, bind, paint, say, await, when, setExportProgress, say, ret.
  unfold frameShape, report.
  destruct (background sess); destruct (frameIndex mod 10 =? 0);
    cbn [fst snd log awaited randomUsed];
    rewrite ?map_app, <- ?app_assoc; reflexivity.
Qed.

Lemma flat_map_single {A B} (f : A -> B) (l : list A) :
  flat_map (fun a => [f a]) l = map f l.
Proof. induction l as [|a l IH]; cbn; [reflexivity|now rewrite IH]. Qed.

Lemma bind_returned {A B} (c : Job A) (k : A -> Job B) (js js' : JobState) (a : A) :
  c js = (Returned a, js') -> bind c k js = k a js'.
Proof. intros H. unfold bind. now rewrite H. Qed.

Ltac run_job :=
  cbn [bind readRefs say await setExportProgress ret throw when tryCatch
       fst snd awaited randomUsed log].

(** [renderOffline] from the read of the refs on: it throws exactly when the
    encoder's output is empty, and logs, frame pixels apart, the frame loop,
    the encoding and, if there is an output, the download and the cleanup. *)
Lemma renderFrames_run (ff : FFmpeg) (sess : Session) (n : Z)
    (frames : list (list Z)) (js : JobState) :
  listenerStage ff <> encoding ->
  exists js',
    renderFrames ff sess n frames js
    = (if outputLength sess =? 0
       then Thrown "FFmpeg produced an empty output file"
       else Returned tt, js')
    /\ map forget (log js')
       = map forget (log js) ++ flat_map (frameShape n) (range n) ++ encodeShape
         ++ (if outputLength sess =? 0 then [] else finishShape sess n).
Proof.
  intros Hff. unfold renderFrames. run_job.
  rewrite (bind_returned _ _ _ _ _
             (forEach_total _ (afterFrame sess (refsAt sess (awaited js)) n frames)
                (captureFrame_returns sess _ n frames) _ _)).
  run_job.
  rewrite (bind_returned _ _ _ _ _ (listener_silent ff _ _ Hff)).
  run_job.
  destruct (outputLength sess =? 0); run_job.
  - eexists. split; [reflexivity|]. cbn [log].
    rewrite !map_app.
    rewrite (fold_left_log _ (frameShape n))
      by (intros; apply afterFrame_log).
    cbn [map forget]. rewrite app_nil_r, <- !app_assoc. reflexivity.
  - rewrite (bind_returned _ _ _ _ _
               (forEach_total _
                  (fun i js => mkJob (S (awaited js)) (randomUsed js)
                                     (log js ++ [DeleteFile (FrameJpg i)]))
                  (fun _ _ => eq_refl) _ _)).
    run_job. eexists. split; [reflexivity|]. cbn [log].
    rewrite !map_app.
    rewrite (fold_left_log _ (fun i => [DeleteFile (FrameJpg i)]))
      by (intros; cbn [log]; now rewrite map_app).
    cbn [log]. rewrite !map_app.
    rewrite (fold_left_log _ (frameShape n))
      by (intros; apply afterFrame_log).
    rewrite flat_map_single. unfold finishShape.
    cbn [map forget]. rewrite <- !app_assoc. reflexivity.
Qed.

(** [renderOffline] on an audio file that decodes. *)
Lemma renderOffline_run (ff : FFmpeg) (sess : Session) (b : Spectrum.AudioBuffer)
    (js : JobState) :
  listenerStage ff <> encoding ->
  decoded sess = Some b ->
  let n := Spectrum.totalFrames b fps in
  exists js',
    renderOffline ff sess js
    = (if outputLength sess =? 0
       then Thrown "FFmpeg produced an empty output file"
       else Returned tt, js')
    /\ map forget (log js')
       = map forget (log js)
         ++ map SetExportProgress [1; 2; 5; 10; 15]
         ++ flat_map (frameShape n) (range n) ++ encodeShape
         ++ (if outputLength sess =? 0 then [] else finishShape sess n).
Proof.
  intros Hff Hdec n.
  unfold renderOffline, loadBackground, loadAlbumArt, decodeAudioData.
  rewrite Hdec.
  destruct (background sess), (albumArt sess); run_job;
    match goal with
    | |- context [renderFrames ff sess ?m ?fr ?st] =>
        destruct (renderFrames_run ff sess m fr st Hff) as [js' [Hrun Hlog]]
    end;
    exists js'; (split; [exact Hrun|]);
    rewrite Hlog; cbn [log]; rewrite !map_app; cbn [map forget];
    rewrite <- !app_assoc; reflexivity.
Qed.

(** [renderOffline] on an audio file that does not decode. *)
Lemma renderOffline_undecodable (ff : FFmpeg) (sess : Session) (js : JobState) :
  decoded sess = None ->
  exists js',
    renderOffline ff sess js = (Thrown "Unable to decode audio data", js')
    /\ log js' = log js ++ map SetExportProgress [1; 2; 5].
Proof.
  intros Hdec.
  unfold renderOffline, loadBackground, loadAlbumArt, decodeAudioData.
  rewrite Hdec.
  destruct (background sess), (albumArt sess); run_job;
    eexists; (split; [reflexivity|]); cbn [log map];
    rewrite <- !app_assoc; reflexivity.
Qed.

Lemma tryCatch_run {A} (c : Job A) (handler : string -> Job A) (js js' : JobState)
    (r : Outcome A) :
  c js = (r, js') ->
  tryCatch c handler js
  = match r with
    | Returned a => (Returned a, js')
    | Thrown e => handler e js'
    end.
Proof. intros H. unfold tryCatch. rewrite H. now destruct r. Qed.

Lemma bind_run {A B} (c : Job A) (k : A -> Job B) (js js' : JobState)
    (r : Outcome A) :
  c js = (r, js') ->
  bind c k js
  = match r with
    | Returned a => k a js'
    | Thrown e => (Thrown e, js')
    end.
Proof. intros H. unfold bind. rewrite H. now destruct r. Qed.

(** A click that has an encoder and an audio file that decodes: the result
    and the whole log, frame pixels apart. *)
Lemma run_shape (sess : Session) (ff : FFmpeg) (b : Spectrum.AudioBuffer) :
  encoder sess = Some ff ->
  listenerStage ff <> encoding ->
  decoded sess = Some b ->
  let n := Spectrum.totalFrames b fps in
  result sess
  = Some (if outputLength sess =? 0
          then Failed "FFmpeg produced an empty output file"
          else Completed)
  /\ map forget (events sess)
     = setupShape ++ map SetExportProgress [10; 15]
       ++ flat_map (frameShape n) (range n) ++ encodeShape
       ++ (if outputLength sess =? 0
           then failureShape "FFmpeg produced an empty output file"
           else finishShape sess n).
Proof.
  intros Henc Hff Hdec n. unfold result, events, run, startRecording.
  unfold encoder in Henc.
  assert (Hload : exists js0,
    (match ffmpegRef sess with
     | Some ff => ret (Some ff)
     | None =>
         await ;;
         if encoderLoads sess
         then ret (Some (loadFFmpeg (exportStage sess)))
         else (say (ConsoleError "Failed to load FFmpeg") ;;
               say (Alert "Failed to load video encoder. Please refresh and try again.") ;;
               ret None)
     end)%job (mkJob 0 0 []) = (Returned (Some ff), js0) /\ log js0 = []).
  { destruct (ffmpegRef sess) as [ff'|].
    - injection Henc as ->. eexists. split; reflexivity.
    - destruct (encoderLoads sess); [|discriminate].
      injection Henc as <-. eexists. split; reflexivity. }
  destruct Hload as [js0 [Hload Hlog0]].
  rewrite (bind_returned _ _ _ _ _ Hload). run_job.
  match goal with
  | |- context [tryCatch _ _ ?st] =>
      destruct (renderOffline_run ff sess b st Hff Hdec) as [js' [Hrun Hlog]]
  end.
  fold n in Hlog. unfold tryCatch. rewrite (bind_run _ _ _ _ _ Hrun).
  cbn [log] in Hlog. rewrite Hlog0 in Hlog.
  destruct (outputLength sess =? 0); run_job; (split; [reflexivity|]).
  - rewrite !map_app, Hlog. cbn [map forget app].
    unfold failureShape, setupShape. rewrite ?app_nil_r, <- ?app_assoc. reflexivity.
  - rewrite Hlog. cbn [map forget app]. unfold setupShape.
    rewrite <- ?app_assoc. reflexivity.
Qed.

End WithMath.
End JobFacts.

(** ** Progress, failure and snapshot of the export job *)

Section LogFacts.
Import JS Canvas ExportJob Pipeline.

Lemma flat_map_forget {B} (f : Event -> list B) (l : list Event) :
  (forall e, f (forget e) = f e) ->
  flat_map f (map forget l) = flat_map f l.
Proof.
  intros H. induction l as [|e l IH]; [reflexivity|].
  cbn [map flat_map]. now rewrite H, IH.
Qed.

Lemma progressOf_forget (l : list Event) : progressOf (map forget l) = progressOf l.
Proof. apply flat_map_forget. now intros []. Qed.

Lemma downloadsOf_forget (l : list Event) : downloadsOf (map forget l) = downloadsOf l.
Proof. apply flat_map_forget. now intros []. Qed.

Lemma alertsOf_forget (l : list Event) : alertsOf (map forget l) = alertsOf l.
Proof. apply flat_map_forget. now intros []. Qed.

Lemma consoleOf_forget (l : list Event) : consoleOf (map forget l) = consoleOf l.
Proof. apply flat_map_forget. now intros []. Qed.

Lemma frames_forget (l : list Event) :
  map fst (framesOf (map forget l)) = map fst (framesOf l).
Proof.
  induction l as [|e l IH]; [reflexivity|].
  unfold framesOf in *. cbn [map flat_map]. rewrite !map_app, IH. now destruct e.
Qed.

Lemma stageAfter_forget (l : list Event) : forall s,
  stageAfter s (map forget l) = stageAfter s l.
Proof.
  induction l as [|e l IH]; intros s; [reflexivity|].
  cbn [map stageAfter fold_left]. fold (stageAfter) in *.
  destruct e; apply IH.
Qed.

Lemma exportingAfter_forget (l : list Event) : forall b,
  exportingAfter b (map forget l) = exportingAfter b l.
Proof.
  induction l as [|e l IH]; intros b; [reflexivity|].
  cbn [map exportingAfter fold_left]. destruct e; apply IH.
Qed.

Lemma loopProgress_forget (l : list Event) : forall b,
  loopProgress b (map forget l) = loopProgress b l.
Proof.
  induction l as [|e l IH]; intros b; [reflexivity|].
  destruct e; cbn [map forget loopProgress]; try apply IH.
  - destruct s; apply IH.
  - destruct b; [f_equal|]; apply IH.
Qed.

(** What the shapes contribute to each reading. *)
Lemma progressOf_frames (n : Z) (l : list Z) :
  progressOf (flat_map (frameShape n) l) = flat_map (report n) l.
Proof.
  induction l as [|i l IH]; [reflexivity|].
  cbn [flat_map]. unfold progressOf in *. rewrite flat_map_app, IH.
  f_equal. unfold frameShape. cbn [flat_map app].
  induction (report n i) as [|p r IHr]; [reflexivity|]. cbn. now rewrite IHr.
Qed.

Lemma progressOf_app (l1 l2 : list Event) :
  progressOf (l1 ++ l2) = progressOf l1 ++ progressOf l2.
Proof. apply flat_map_app. Qed.

Lemma progressOf_deletes (l : list Z) :
  progressOf (map (fun i => DeleteFile (FrameJpg i)) l) = [].
Proof. induction l as [|i l IH]; [reflexivity|exact IH]. Qed.

Lemma downloadsOf_frames (n : Z) (l : list Z) :
  downloadsOf (flat_map (frameShape n) l) = [].
Proof.
  induction l as [|i l IH]; [reflexivity|].
  cbn [flat_map]. unfold downloadsOf in *. rewrite flat_map_app, IH, app_nil_r.
  unfold frameShape. cbn [flat_map app].
  induction (report n i) as [|p r IHr]; [reflexivity|exact IHr].
Qed.

Lemma alertsOf_frames (n : Z) (l : list Z) :
  alertsOf (flat_map (frameShape n) l) = [].
Proof.
  induction l as [|i l IH]; [reflexivity|].
  cbn [flat_map]. unfold alertsOf in *. rewrite flat_map_app, IH, app_nil_r.
  unfold frameShape. cbn [flat_map app].
  induction (report n i) as [|p r IHr]; [reflexivity|exact IHr].
Qed.

Lemma consoleOf_frames (n : Z) (l : list Z) :
  consoleOf (flat_map (frameShape n) l) = [].
Proof.
  induction l as [|i l IH]; [reflexivity|].
  cbn [flat_map]. unfold consoleOf in *. rewrite flat_map_app, IH, app_nil_r.
  unfold frameShape. cbn [flat_map app].
  induction (report n i) as [|p r IHr]; [reflexivity|exact IHr].
Qed.

Lemma framesOf_frames (n : Z) (l : list Z) :
  map fst (framesOf (flat_map (frameShape n) l)) = l.
Proof.
  induction l as [|i l IH]; [reflexivity|].
  cbn [flat_map]. unfold framesOf in *. rewrite flat_map_app, map_app, IH.
  unfold frameShape. cbn [flat_map app map fst].
  induction (report n i) as [|p r IHr]; [reflexivity|exact IHr].
Qed.

Lemma framesOf_deletes (l : list Z) :
  framesOf (map (fun i => DeleteFile (FrameJpg i)) l) = [].
Proof. induction l as [|i l IH]; [reflexivity|exact IH]. Qed.

Lemma stageAfter_app (l1 l2 : list Event) (s : ExportStage) :
  stageAfter s (l1 ++ l2) = stageAfter (stageAfter s l1) l2.
Proof. unfold stageAfter. apply fold_left_app. Qed.

Lemma exportingAfter_app (l1 l2 : list Event) (b : bool) :
  exportingAfter b (l1 ++ l2) = exportingAfter (exportingAfter b l1) l2.
Proof. unfold exportingAfter. apply fold_left_app. Qed.

Lemma loopProgress_reports (b : bool) (r : list Z) (tail : list Event) :
  loopProgress true (map SetExportProgress r ++ tail) = r ++ loopProgress true tail.
Proof. induction r as [|p r IH]; [reflexivity|]. cbn. now rewrite IH. Qed.

Lemma loopProgress_frames (n : Z) (tail : list Event) : forall (l : list Z) (b : bool),
  loopProgress b (flat_map (frameShape n) l ++ SetExportStage encoding :: tail)
  = flat_map (report n) l ++ loopProgress false tail.
Proof.
  induction l as [|i l IH]; intros b.
  - destruct b; reflexivity.
  - cbn [flat_map]. rewrite <- app_assoc. unfold frameShape at 1.
    cbn [app loopProgress]. rewrite <- app_assoc.
    rewrite (loopProgress_reports true). now rewrite IH.
Qed.

Lemma loopProgress_deletes (tail : list Event) (l : list Z) :
  loopProgress false (map (fun i => DeleteFile (FrameJpg i)) l ++ tail)
  = loopProgress false tail.
Proof. induction l as [|i l IH]; [reflexivity|exact IH]. Qed.

(** Chains of inequalities. *)
Lemma Between_le (l : list Z) : forall lo hi, Between lo hi l -> lo <= hi.
Proof.
  induction l as [|x l IH]; intros lo hi H; cbn in H; [exact H|].
  destruct H as [H1 H2]. apply IH in H2. lia.
Qed.

Lemma Between_lower (l : list Z) (lo lo' hi : Z) :
  lo <= lo' -> Between lo' hi l -> Between lo hi l.
Proof. destruct l; cbn; intuition lia. Qed.

Lemma Between_app (l1 l2 : list Z) : forall lo mid hi,
  Between lo mid l1 -> Between mid hi l2 -> Between lo hi (l1 ++ l2).
Proof.
  induction l1 as [|x l1 IH]; intros lo mid hi H1 H2; cbn in *.
  - now apply Between_lower with mid.
  - destruct H1 as [Hx H1]. split; [exact Hx|]. now apply IH with mid.
Qed.

Lemma Between_nondecreasing (l : list Z) : forall lo hi,
  Between lo hi l -> nondecreasing l.
Proof.
  induction l as [|x l IH]; intros lo hi H; [exact I|].
  destruct H as [_ H]. destruct l as [|y l]; [exact I|].
  split; [apply H|]. now apply IH with x hi.
Qed.

Lemma Between_Forall (l : list Z) : forall lo hi,
  Between lo hi l -> Forall (fun x => lo <= x <= hi) l.
Proof.
  induction l as [|x l IH]; intros lo hi H; [constructor|].
  destruct H as [Hx H]. pose proof (Between_le _ _ _ H) as Hhi.
  constructor; [lia|].
  apply IH in H. eapply Forall_impl; [|exact H]. cbn. lia.
Qed.

End LogFacts.

Section ProgressFacts.
Import JS Canvas ExportJob Pipeline.

(** The value the frame loop reports at [frameIndex]. *)
Lemma loop_report_le (n : Z) (i j : Z) :
  0 < n -> i <= j ->
  Math_round (inject_Z i / inject_Z n * 55) <= Math_round (inject_Z j / inject_Z n * 55).
Proof.
  intros Hn Hij. unfold Math_round. apply Qfloor_resp_le.
  assert (Hinv : (0 < / inject_Z n)%Q).
  { apply Qinv_lt_0_compat. change 0%Q with (inject_Z 0). now rewrite <- Zlt_Qlt. }
  assert (Hq : (inject_Z i <= inject_Z j)%Q) by now rewrite <- Zle_Qle.
  unfold Qdiv.
  assert (inject_Z i * / inject_Z n <= inject_Z j * / inject_Z n)%Q
    by (apply Qmult_le_compat_r; [exact Hq | now apply Qlt_le_weak]).
  lra.
Qed.

Lemma loop_report_first (n : Z) : Math_round (inject_Z 0 / inject_Z n * 55) = 0.
Proof.
  unfold Math_round.
  rewrite (Qfloor_comp _ (1 # 2)); [reflexivity|].
  unfold Qdiv. change (inject_Z 0) with 0%Q. ring.
Qed.

Lemma loop_report_last (n : Z) : 0 < n -> Math_round (inject_Z n / inject_Z n * 55) = 55.
Proof.
  intros Hn. unfold Math_round.
  rewrite (Qfloor_comp _ (111 # 2)); [reflexivity|].
  assert (~ (inject_Z n == 0)%Q).
  { intros H. unfold Qeq in H. cbn in H. lia. }
  field. assumption.
Qed.

Lemma reports_between (n : Z) : forall (k s : nat),
  0 < n -> Z.of_nat (s + k) <= n ->
  Between (15 + Math_round (inject_Z (Z.of_nat s) / inject_Z n * 55)) 70
          (flat_map (report n) (map Z.of_nat (seq s k))).
Proof.
  induction k as [|k IH]; intros s Hn Hs.
  - cbn [seq map flat_map Between].
    pose proof (loop_report_le n (Z.of_nat s) n Hn ltac:(lia)) as H.
    rewrite loop_report_last in H by exact Hn. lia.
  - cbn [seq map flat_map].
    specialize (IH (S s) Hn ltac:(lia)).
    pose proof (loop_report_le n (Z.of_nat s) (Z.of_nat (S s)) Hn ltac:(lia)) as Hstep.
    unfold report at 1. destruct (Z.of_nat s mod 10 =? 0); cbn [app Between].
    + split; [lia|]. eapply Between_lower; [|exact IH]. lia.
    + eapply Between_lower; [|exact IH]. lia.
Qed.

(** The frame loop reports values that never decrease, from 15 to 70. *)
Lemma loop_reports (n : Z) : Between 15 70 (flat_map (report n) (range n)).
Proof.
  destruct (Z.lt_ge_cases 0 n) as [Hn|Hn].
  - pose proof (reports_between n (Z.to_nat n) 0 Hn ltac:(lia)) as H.
    cbn [Z.of_nat] in H. rewrite loop_report_first in H. exact H.
  - unfold range. replace (Z.to_nat n) with O by lia. cbn [seq map flat_map Between]. lia.
Qed.

End ProgressFacts.

Section ExportClaims.
Import JS Canvas ExportJob Pipeline.
Context {M : MathLib}.

Ltac run_job :=
  cbn [bind readRefs say await setExportProgress ret throw when tryCatch
       fst snd awaited randomUsed log].

Lemma ready_listener (sess : Session) (ff : FFmpeg) :
  Ready sess -> encoder sess = Some ff -> listenerStage ff <> encoding.
Proof.
  intros [Hstage Href] Henc. unfold encoder in Henc.
  destruct (ffmpegRef sess) as [ff'|].
  - injection Henc as <-. rewrite (Href ff' eq_refl). discriminate.
  - destruct (encoderLoads sess); [|discriminate].
    injection Henc as <-. cbn. rewrite Hstage. discriminate.
Qed.

Lemma run_not_started (sess : Session) :
  encoder sess = None ->
  result sess = Some NotStarted
  /\ stageAfter (exportStage sess) (events sess) = exportStage sess.
Proof.
  unfold encoder, result, events, run, startRecording.
  destruct (ffmpegRef sess); [discriminate|].
  destruct (encoderLoads sess); [discriminate|]. split; reflexivity.
Qed.

Lemma run_undecodable (sess : Session) (ff : FFmpeg) :
  encoder sess = Some ff -> decoded sess = None ->
  result sess = Some (Failed "Unable to decode audio data")
  /\ events sess = setupShape ++ failureShape "Unable to decode audio data".
Proof.
  intros Henc Hdec. unfold encoder in Henc.
  unfold result, events, run, startRecording.
  destruct (ffmpegRef sess) as [ff'|];
    [injection Henc as -> | destruct (encoderLoads sess); [injection Henc as <-|discriminate]];
    run_job;
    match goal with
    | |- context [tryCatch (bind (renderOffline ?f _) _) _ ?st] =>
        destruct (renderOffline_undecodable f sess st Hdec) as [js' [Hrun Hlog]]
    end;
    unfold tryCatch; rewrite (bind_run _ _ _ _ _ Hrun); run_job;
    cbn [log] in Hlog; (split; [reflexivity|]); rewrite Hlog; reflexivity.
Qed.

Lemma completed_inv (sess : Session) :
  Ready sess -> result sess = Some Completed ->
  exists ff b,
    encoder sess = Some ff /\ decoded sess = Some b
    /\ (outputLength sess =? 0) = false.
Proof.
  intros Hready Hres.
  destruct (encoder sess) as [ff|] eqn:Henc.
  - destruct (decoded sess) as [b|] eqn:Hdec.
    + exists ff, b. repeat split.
      destruct (run_shape sess ff b Henc (ready_listener sess ff Hready Henc) Hdec)
        as [Hr _].
      rewrite Hr in Hres. destruct (outputLength sess =? 0); [discriminate|reflexivity].
    + destruct (run_undecodable sess ff Henc Hdec) as [Hr _].
      rewrite Hr in Hres. discriminate.
  - destruct (run_not_started sess Henc) as [Hr _].
    rewrite Hr in Hres. discriminate.
Qed.

Lemma stageAfter_frames (n : Z) (l : list Z) (s : ExportStage) :
  stageAfter s (flat_map (frameShape n) l) = s.
Proof.
  revert s. induction l as [|i l IH]; intros s; [reflexivity|].
  cbn [flat_map]. rewrite stageAfter_app, IH. unfold frameShape.
  unfold stageAfter. cbn [fold_left].
  induction (report n i) as [|p r IHr]; [reflexivity|exact IHr].
Qed.

Lemma stageAfter_deletes (l : list Z) (s : ExportStage) :
  stageAfter s (map (fun i => DeleteFile (FrameJpg i)) l) = s.
Proof. induction l as [|i l IH]; [reflexivity|exact IH]. Qed.

(** Whatever a click from a [Ready] state does, the state it leaves (once the
    progress bar is hidden) is [Ready] again: the stage is back to [idle] and
    the encoder kept in [ffmpegRef] was loaded while the stage was [idle]. *)
Lemma ready_next_click (sess next : Session) :
  Ready sess ->
  ffmpegRef next = encoder sess ->
  exportStage next = stageAfter (exportStage sess) (events sess) ->
  Ready next.
Proof.
  intros Hready Href Hstage. split.
  - rewrite Hstage. destruct (encoder sess) as [ff|] eqn:Henc.
    + destruct (decoded sess) as [b|] eqn:Hdec.
      * destruct (run_shape sess ff b Henc (ready_listener sess ff Hready Henc) Hdec)
          as [_ Hshape].
        rewrite <- stageAfter_forget, Hshape.
        rewrite !stageAfter_app, stageAfter_frames.
        destruct (outputLength sess =? 0); [reflexivity|].
        unfold finishShape. now rewrite !stageAfter_app, stageAfter_deletes.
      * destruct (run_undecodable sess ff Henc Hdec) as [_ Hev].
        rewrite Hev. reflexivity.
    + destruct (run_not_started sess Henc) as [_ Hev].
      rewrite Hev. apply Hready.
  - intros ff Hff. rewrite Href in Hff. destruct Hready as [Hidle Hloaded].
    unfold encoder in Hff. destruct (ffmpegRef sess) as [ff'|].
    + injection Hff as <-. now apply Hloaded.
    + destruct (encoderLoads sess); [|discriminate].
      injection Hff as <-. exact Hidle.
Qed.

(** Progress reported over a completed run. *)
Lemma completed_progress (sess : Session) (ff : FFmpeg) (b : Spectrum.AudioBuffer) :
  encoder sess = Some ff -> listenerStage ff <> encoding ->
  decoded sess = Some b -> (outputLength sess =? 0) = false ->
  let n := Spectrum.totalFrames b fps in
  progressOf (events sess)
  = [0; 1; 2; 5; 10; 15] ++ flat_map (report n) (range n) ++ [70; 75; 95; 98; 100]
  /\ loopProgress false (events sess) = flat_map (report n) (range n).
Proof.
  intros Henc Hff Hdec Hout n.
  destruct (run_shape sess ff b Henc Hff Hdec) as [_ Hshape].
  fold n in Hshape. rewrite Hout in Hshape. split.
  - rewrite <- progressOf_forget, Hshape.
    unfold progressOf at 1. rewrite !flat_map_app.
    fold (progressOf (flat_map (frameShape n) (range n))).
    rewrite progressOf_frames. unfold finishShape. rewrite !flat_map_app.
    fold (progressOf (map (fun i => DeleteFile (FrameJpg i)) (range n))).
    rewrite progressOf_deletes. reflexivity.
  - rewrite <- loopProgress_forget, Hshape.
    unfold setupShape, encodeShape, finishShape.
    cbn [app map loopProgress].
    rewrite loopProgress_frames. cbn [app loopProgress].
    rewrite loopProgress_deletes. cbn [loopProgress]. now rewrite app_nil_r.
Qed.

(** C4.  Over a run that completes, the reported progress never decreases,
    every value reported from the frame loop lies between 15 and 70, and the
    last report is 100. *)
Theorem export_progress (sess : Session) :
  Ready sess -> result sess = Some Completed ->
  nondecreasing (progressOf (events sess))
  /\ Forall (fun p => 15 <= p <= 70) (loopProgress false (events sess))
  /\ last (progressOf (events sess)) 0 = 100.
Proof.
  intros Hready Hres.
  destruct (completed_inv sess Hready Hres) as (ff & b & Henc & Hdec & Hout).
  destruct (completed_progress sess ff b Henc (ready_listener sess ff Hready Henc)
              Hdec Hout) as [Hprog Hloop].
  set (n := Spectrum.totalFrames b fps) in *.
  pose proof (loop_reports n) as Hbetween.
  rewrite Hprog, Hloop. split; [|split].
  - apply Between_nondecreasing with 0 100.
    apply Between_app with 15; [cbn; lia|].
    apply Between_app with 70; [exact Hbetween|cbn; lia].
  - now apply Between_Forall.
  - rewrite app_assoc.
    change [70; 75; 95; 98; 100] with ([70; 75; 95; 98] ++ [100]).
    rewrite app_assoc. apply last_last.
Qed.

(** C3 (as the code has it).  When the encoder's output is empty,
    [renderOffline] throws "FFmpeg produced an empty output file"; the error
    goes to the console, the user is shown "Video rendering failed. Please
    try again.", the job is back in the [idle] stage with [isExporting]
    false, and nothing is downloaded. *)
Theorem empty_output_fails (sess : Session) (ff : FFmpeg) (b : Spectrum.AudioBuffer) :
  Ready sess -> encoder sess = Some ff -> decoded sess = Some b ->
  outputLength sess = 0 ->
  result sess = Some (Failed "FFmpeg produced an empty output file")
  /\ consoleOf (events sess)
     = ["Rendering failed: FFmpeg produced an empty output file"%string]
  /\ alertsOf (events sess) = ["Video rendering failed. Please try again."%string]
  /\ downloadsOf (events sess) = []
  /\ stageAfter (exportStage sess) (events sess) = idle
  /\ exportingAfter false (events sess) = false.
Proof.
  intros Hready Henc Hdec Hout.
  destruct (run_shape sess ff b Henc (ready_listener sess ff Hready Henc) Hdec)
    as [Hres Hshape].
  rewrite Hout in Hres, Hshape. cbn [Z.eqb] in Hres, Hshape.
  set (n := Spectrum.totalFrames b fps) in *.
  split; [exact Hres|].
  rewrite <- consoleOf_forget, <- alertsOf_forget, <- downloadsOf_forget,
          <- stageAfter_forget, <- exportingAfter_forget, Hshape.
  repeat split.
  - unfold consoleOf at 1. rewrite !flat_map_app.
    fold (consoleOf (flat_map (frameShape n) (range n))).
    now rewrite consoleOf_frames.
  - unfold alertsOf at 1. rewrite !flat_map_app.
    fold (alertsOf (flat_map (frameShape n) (range n))).
    now rewrite alertsOf_frames.
  - unfold downloadsOf at 1. rewrite !flat_map_app.
    fold (downloadsOf (flat_map (frameShape n) (range n))).
    now rewrite downloadsOf_frames.
  - rewrite !stageAfter_app. reflexivity.
  - rewrite !exportingAfter_app. reflexivity.
Qed.

End ExportClaims.

Section SnapshotClaims.
Import JS Canvas ExportJob Pipeline.
Context {M : MathLib}.

Ltac run_job :=
  cbn [bind readRefs say await setExportProgress ret throw when tryCatch
       fst snd awaited randomUsed log].

Ltac same_session :=
  cbn [withRefs songTitle exportStage ffmpegRef encoderLoads background albumArt
       decoded encoderProgress outputLength randomValues refsAt].

Lemma renderFrames_withRefs (ff : FFmpeg) (sess : Session) (refs' : nat -> Refs)
    (n : Z) (frames : list (list Z)) (js : JobState) :
  refs' (awaited js) = refsAt sess (awaited js) ->
  renderFrames ff (withRefs sess refs') n frames js = renderFrames ff sess n frames js.
Proof.
  intros H. unfold renderFrames. run_job. same_session. rewrite H. reflexivity.
Qed.

Lemma renderOffline_withRefs (ff : FFmpeg) (sess : Session) (refs' : nat -> Refs)
    (js : JobState) :
  refs' (setupAwaits sess + awaited js)%nat = refsAt sess (setupAwaits sess + awaited js)%nat ->
  renderOffline ff (withRefs sess refs') js = renderOffline ff sess js.
Proof.
  unfold setupAwaits, renderOffline, loadBackground, loadAlbumArt, decodeAudioData.
  same_session.
  destruct (background sess), (albumArt sess), (decoded sess);
    cbn [Nat.add]; intros H; run_job; try reflexivity;
    apply renderFrames_withRefs; exact H.
Qed.

(** C5 (as the code has it).  The export reads the four refs once, right
    before the first frame, after the media were loaded and the audio was
    fetched and decoded: two schedules of changes that agree at that point
    give the same run, whatever they do before and after. *)
Theorem snapshot_before_first_frame (sess : Session) (refs' : nat -> Refs) :
  refs' (snapshotTick sess) = refsAt sess (snapshotTick sess) ->
  run (withRefs sess refs') = run sess.
Proof.
  unfold snapshotTick, run, startRecording. same_session.
  destruct (ffmpegRef sess) as [ff|]; [|destruct (encoderLoads sess)];
    rewrite ?Nat.add_0_r; intros H; run_job; try reflexivity;
    unfold tryCatch, bind;
    rewrite renderOffline_withRefs; try reflexivity; cbn [awaited];
    rewrite ?Nat.add_0_r; exact H.
Qed.

(** A frame index past the end of the analysis reads as silence. *)
Lemma frameSpectrum_missing (frames : list (list Z)) (i : Z) :
  nth_error frames (Z.to_nat i) = None -> frameSpectrum frames i = repeat 0 1024.
Proof. intros H. unfold frameSpectrum. now rewrite H. Qed.

Lemma frameSpectrum_padded (frames : list (list Z)) (k : nat) (i : Z) :
  frameSpectrum (frames ++ repeat (repeat 0 1024) k) i = frameSpectrum frames i.
Proof.
  unfold frameSpectrum.
  destruct (Nat.lt_ge_cases (Z.to_nat i) (length frames)) as [Hlt|Hge].
  - now rewrite nth_error_app1 by exact Hlt.
  - rewrite nth_error_app2 by exact Hge.
    assert (Hnone : nth_error frames (Z.to_nat i) = None)
      by now apply nth_error_None.
    rewrite Hnone.
    destruct (nth_error (repeat (repeat 0 1024) k) (Z.to_nat i - length frames))
      as [d|] eqn:Hd; [|reflexivity].
    apply nth_error_In in Hd. now apply repeat_spec in Hd.
Qed.

Lemma renderFrames_padded (ff : FFmpeg) (sess : Session) (n : Z)
    (frames : list (list Z)) (k : nat) (js : JobState) :
  renderFrames ff sess n (frames ++ repeat (repeat 0 1024) k) js
  = renderFrames ff sess n frames js.
Proof.
  unfold renderFrames. run_job. unfold bind at 1. symmetry. unfold bind at 1.
  rewrite (forEach_ext
             (captureFrame sess (refsAt sess (awaited js)) n frames)
             (captureFrame sess (refsAt sess (awaited js)) n
                (frames ++ repeat (repeat 0 1024) k))).
  - reflexivity.
  - intros i js0. unfold captureFrame. now rewrite frameSpectrum_padded.
Qed.

(** C10.  Where the analysis has no frame for a frame index, the renderer
    uses 1024 zero bins: the export runs as with the analysis padded with
    such frames, writes all [n] frames, and completes at progress 100. *)
Theorem missing_frame_is_silence (ff : FFmpeg) (sess : Session) (n : Z)
    (frames : list (list Z)) (js : JobState) :
  listenerStage ff <> encoding -> outputLength sess <> 0 ->
  let done := renderFrames ff sess n frames js in
  (forall i, nth_error frames (Z.to_nat i) = None ->
             frameSpectrum frames i = repeat 0 1024)
  /\ done = renderFrames ff sess n
              (frames ++ repeat (repeat 0 1024) (Z.to_nat n - length frames)) js
  /\ fst done = Returned tt
  /\ map fst (framesOf (log (snd done))) = map fst (framesOf (log js)) ++ range n
  /\ last (progressOf (log (snd done))) 0 = 100.
Proof.
  intros Hff Hout done.
  destruct (renderFrames_run ff sess n frames js Hff) as [js' [Hrun Hlog]].
  apply Z.eqb_neq in Hout. rewrite Hout in Hrun, Hlog.
  split; [apply frameSpectrum_missing|].
  split; [subst done; now rewrite renderFrames_padded|].
  subst done. rewrite Hrun. cbn [fst snd].
  split; [reflexivity|]. split.
  - rewrite <- frames_forget, Hlog. unfold encodeShape, finishShape.
    unfold framesOf. rewrite !flat_map_app, !map_app.
    fold (framesOf (map forget (log js))).
    fold (framesOf (flat_map (frameShape n) (range n))).
    fold (framesOf (map (fun i => DeleteFile (FrameJpg i)) (range n))).
    rewrite frames_forget, framesOf_frames, framesOf_deletes.
    cbn [flat_map map app]. now rewrite app_nil_r.
  - rewrite <- progressOf_forget, Hlog. unfold finishShape.
    rewrite !progressOf_app, progressOf_deletes.
    change (progressOf [DeleteFile AudioMp3; DeleteFile OutputMp4; CloseAudioContext;
                        SetExportProgress 100; HideProgressLater]) with [100].
    rewrite !app_assoc. apply last_last.
Qed.

End SnapshotClaims.

Section ExportExamples.
Import JS Canvas ExportJob Pipeline.

Lemma sample_ready (outputLength : Z) (refsAt : nat -> Refs) :
  Ready (Samples.session outputLength refsAt).
Proof.
  split; [reflexivity|]. intros ff H. cbn in H. now injection H as <-.
Defined.

Lemma export_progress_witness :
  let sess := Samples.session 1024 (fun _ => Samples.refs) in
  nondecreasing (progressOf (events (M := coarseMath) sess))
  /\ Forall (fun p => 15 <= p <= 70) (loopProgress false (events (M := coarseMath) sess))
  /\ last (progressOf (events (M := coarseMath) sess)) 0 = 100.
Proof.
  apply (export_progress (M := coarseMath)
           (Samples.session 1024 (fun _ => Samples.refs))).
  - apply sample_ready.
  - vm_compute. reflexivity.
Defined.

Lemma empty_output_fails_witness :
  let sess := Samples.session 0 (fun _ => Samples.refs) in
  result (M := coarseMath) sess = Some (Failed "FFmpeg produced an empty output file")
  /\ consoleOf (events (M := coarseMath) sess)
     = ["Rendering failed: FFmpeg produced an empty output file"%string]
  /\ alertsOf (events (M := coarseMath) sess)
     = ["Video rendering failed. Please try again."%string]
  /\ downloadsOf (events (M := coarseMath) sess) = []
  /\ stageAfter idle (events (M := coarseMath) sess) = idle
  /\ exportingAfter false (events (M := coarseMath) sess) = false.
Proof.
  apply (empty_output_fails (M := coarseMath)
           (Samples.session 0 (fun _ => Samples.refs)) (loadFFmpeg idle)
           Samples.shortClip).
  - apply sample_ready.
  - reflexivity.
  - reflexivity.
  - reflexivity.
Defined.

(** C3 (as worded): on an empty output the job is in a stage named "failed"
    and the user is shown a message containing "produced an empty output".
    Refuted at the sample click with an empty output: the stage is back to
    "idle" and the only message shown is the generic one. *)
Lemma empty_output_not_failed_stage :
  ~ (forall sess : Session,
        Ready sess -> encoder sess <> None -> decoded sess <> None ->
        outputLength sess = 0 ->
        stageName (stageAfter (exportStage sess) (events (M := coarseMath) sess))
        = "failed"%string
        /\ (exists message, In message (alertsOf (events (M := coarseMath) sess))
                            /\ contains "produced an empty output" message = true)
        /\ downloadsOf (events (M := coarseMath) sess) = []).
Proof.
  intros H.
  destruct (H (Samples.session 0 (fun _ => Samples.refs))) as [Hstage _].
  - apply sample_ready.
  - discriminate.
  - discriminate.
  - reflexivity.
  - vm_compute in Hstage. discriminate.
Qed.

Lemma snapshot_before_first_frame_witness :
  run (M := coarseMath)
      (withRefs (Samples.session 1024 (fun _ => Samples.refs)) Samples.editDuringCapture)
  = run (M := coarseMath) (Samples.session 1024 (fun _ => Samples.refs)).
Proof.
  apply (snapshot_before_first_frame (M := coarseMath)
           (Samples.session 1024 (fun _ => Samples.refs)) Samples.editDuringCapture).
  reflexivity.
Defined.

(** C5 (as worded): the frames depend on the refs as they are when the
    export starts only.  Refuted at the sample click: replacing the refs
    while the audio is being fetched changes the captured frame. *)
Lemma edit_during_fetch_changes_frames :
  ~ (forall (sess : Session) (refs' : nat -> Refs),
        refs' 0%nat = refsAt sess 0%nat ->
        framesOf (events (M := coarseMath) (withRefs sess refs'))
        = framesOf (events (M := coarseMath) sess)).
Proof.
  intros H.
  specialize (H (Samples.session 1024 (fun _ => Samples.refs))
                Samples.editDuringFetch eq_refl).
  apply (f_equal (map (fun frame => length (snd frame)))) in H.
  vm_compute in H. discriminate.
Qed.

Lemma missing_frame_is_silence_witness :
  let sess := Samples.session 1024 (fun _ => Samples.refs) in
  let done := renderFrames (M := coarseMath) (loadFFmpeg idle) sess 2 [] Samples.atClick in
  (forall i, nth_error (@nil (list Z)) (Z.to_nat i) = None ->
             frameSpectrum [] i = repeat 0 1024)
  /\ done = renderFrames (M := coarseMath) (loadFFmpeg idle) sess 2
              ([] ++ repeat (repeat 0 1024) (Z.to_nat 2 - 0)) Samples.atClick
  /\ fst done = Returned tt
  /\ map fst (framesOf (log (snd done))) = map fst (framesOf []) ++ range 2
  /\ last (progressOf (log (snd done))) 0 = 100.
Proof.
  apply (missing_frame_is_silence (M := coarseMath) (loadFFmpeg idle)
           (Samples.session 1024 (fun _ => Samples.refs)) 2 [] Samples.atClick);
    discriminate.
Defined.

End ExportExamples.

(** * Further properties *)

(** ** The analysis and the frame loop *)

Section AnalysisCoverage.
Import JS Spectrum Pipeline.

Lemma nth_error_map_range {A} (f : Z -> A) (n i : Z) :
  0 <= i < n -> nth_error (map f (range n)) (Z.to_nat i) = Some (f i).
Proof.
  intros H. unfold range. rewrite map_map.
  rewrite nth_error_map, nth_error_seq.
  destruct (Nat.ltb_spec (Z.to_nat i) (Z.to_nat n)) as [_|Hge]; [|lia].
  cbn. f_equal. f_equal. lia.
Qed.

(** X1.  The analysis yields one frame for every index the frame loop of
    [renderOffline] visits, so the loop always finds its frame and the
    all-zero substitute is never used there. *)
Theorem analysis_covers_frame_loop (b : AudioBuffer) (frameIndex : Z) :
  0 <= frameIndex < totalFrames b fps ->
  nth_error (analyzeAudioOffline b fps) (Z.to_nat frameIndex)
  = Some (frameData (channelData b) (samplesPerFrame b fps) frameIndex)
  /\ frameSpectrum (analyzeAudioOffline b fps) frameIndex
     = frameData (channelData b) (samplesPerFrame b fps) frameIndex.
Proof.
  intros H.
  assert (Hn : nth_error (analyzeAudioOffline b fps) (Z.to_nat frameIndex)
               = Some (frameData (channelData b) (samplesPerFrame b fps) frameIndex))
    by (unfold analyzeAudioOffline; now apply nth_error_map_range).
  split; [exact Hn|]. unfold frameSpectrum. now rewrite Hn.
Qed.

Lemma analysis_covers_frame_loop_witness :
  frameSpectrum (analyzeAudioOffline MoreSamples.tailBuffer fps) 1
  = frameData (channelData MoreSamples.tailBuffer)
              (samplesPerFrame MoreSamples.tailBuffer fps) 1.
Proof.
  apply (analysis_covers_frame_loop MoreSamples.tailBuffer 1).
  vm_compute. split; [discriminate|reflexivity].
Defined.




Lemma analyzeAudioOffline_nth (b : AudioBuffer) (fps' frame bin : Z) :
  0 < fps' -> 0 <= frame < totalFrames b fps' -> 0 <= bin < 1024 ->
  nth (Z.to_nat bin) (nth (Z.to_nat frame) (analyzeAudioOffline b fps') []) 0
  = binValue (channelData b) (frame * (sampleRate b / fps'))
             (Z.min (frame * (sampleRate b / fps') + 2048) (len (channelData b))) bin.
Proof.
  intros Hfps Hframe Hbin. unfold analyzeAudioOffline.
  rewrite nth_map_range by exact Hframe.
  unfold frameData. rewrite nth_map_range by exact Hbin.
  unfold samplesPerFrame, Math_floor. now rewrite Qfloor_div_Z by exact Hfps.
Qed.

(** X3.  Where the buffer ends inside a frame's window, the bins whose
    sub-bin starts at or after the end of the buffer hold 0. *)
Theorem bins_past_the_end_are_zero (b : AudioBuffer) (fps' frame bin : Z) :
  0 < sampleRate b -> 0 < fps' ->
  0 <= frame < totalFrames b fps' -> 0 <= bin < 1024 ->
  let startSample := frame * (sampleRate b / fps') in
  let endSample := Z.min (startSample + 2048) (len (channelData b)) in
  let binSize := Z.max 1 ((endSample - startSample) / 1024) in
  endSample <= startSample + bin * binSize ->
  nth (Z.to_nat bin) (nth (Z.to_nat frame) (analyzeAudioOffline b fps') []) 0 = 0.
Proof.
  intros Hsr Hfps Hframe Hbin startSample endSample binSize Hpast.
  rewrite analyzeAudioOffline_nth by assumption.
  fold startSample. fold endSample.
  pose proof (totalFrames_start b fps' frame Hsr Hfps Hframe) as Hstart.
  rewrite binValue_slice by (subst endSample; fold startSample in Hstart; lia).
  fold binSize. rewrite slice_empty by lia. reflexivity.
Qed.

Lemma bins_past_the_end_are_zero_witness :
  nth 500 (nth 1 (analyzeAudioOffline MoreSamples.tailBuffer 30) []) 0 = 0.
Proof.
  apply (bins_past_the_end_are_zero MoreSamples.tailBuffer 30 1 500);
    vm_compute; repeat split; discriminate.
Defined.

End AnalysisCoverage.

(** ** What a click leaves behind *)

Section RunOutcomes.
Import JS Canvas ExportJob Pipeline Cleanup.
Context {M : MathLib}.

Ltac run_job :=
  cbn [bind readRefs say await setExportProgress ret throw when tryCatch
       fst snd awaited randomUsed log].

Lemma deletedOf_forget (l : list Event) : deletedOf (map forget l) = deletedOf l.
Proof. apply flat_map_forget. now intros []. Qed.

Lemma encoderCallsOf_forget (l : list Event) :
  encoderCallsOf (map forget l) = encoderCallsOf l.
Proof. apply flat_map_forget. now intros []. Qed.

Lemma audioContextClosed_forget (l : list Event) :
  audioContextClosed (map forget l) = audioContextClosed l.
Proof.
  unfold audioContextClosed. induction l as [|e l IH]; [reflexivity|].
  cbn [map existsb]. rewrite IH. now destruct e.
Qed.

Lemma deletedOf_frames (n : Z) (l : list Z) :
  deletedOf (flat_map (frameShape n) l) = [].
Proof.
  induction l as [|i l IH]; [reflexivity|].
  cbn [flat_map]. unfold deletedOf in *. rewrite flat_map_app, IH, app_nil_r.
  unfold frameShape. cbn [flat_map app].
  induction (report n i) as [|p r IHr]; [reflexivity|exact IHr].
Qed.

Lemma deletedOf_deletes (l : list Z) :
  deletedOf (map (fun i => DeleteFile (FrameJpg i)) l) = map FrameJpg l.
Proof. induction l as [|i l IH]; [reflexivity|]. cbn. f_equal. exact IH. Qed.

Lemma audioContextClosed_frames (n : Z) (l : list Z) :
  audioContextClosed (flat_map (frameShape n) l) = false.
Proof.
  unfold audioContextClosed. induction l as [|i l IH]; [reflexivity|].
  cbn [flat_map]. rewrite existsb_app, IH, orb_false_r.
  unfold frameShape. cbn [existsb orb].
  induction (report n i) as [|p r IHr]; [reflexivity|exact IHr].
Qed.



Lemma downloadsOf_deletes (l : list Z) :
  downloadsOf (map (fun i => DeleteFile (FrameJpg i)) l) = [].
Proof. induction l as [|i l IH]; [reflexivity|exact IH]. Qed.

Lemma framesOf_app (l1 l2 : list Event) :
  framesOf (l1 ++ l2) = framesOf l1 ++ framesOf l2.
Proof. apply flat_map_app. Qed.

Lemma deletedOf_app (l1 l2 : list Event) :
  deletedOf (l1 ++ l2) = deletedOf l1 ++ deletedOf l2.
Proof. apply flat_map_app. Qed.

Lemma downloadsOf_app (l1 l2 : list Event) :
  downloadsOf (l1 ++ l2) = downloadsOf l1 ++ downloadsOf l2.
Proof. apply flat_map_app. Qed.

(** The log of a completed run, read for files. *)
Lemma completed_files (sess : Session) (ff : FFmpeg) (b : Spectrum.AudioBuffer) :
  encoder sess = Some ff -> listenerStage ff <> encoding ->
  decoded sess = Some b ->
  let n := Spectrum.totalFrames b fps in
  map fst (framesOf (events sess)) = range n
  /\ deletedOf (events sess)
     = (if outputLength sess =? 0 then []
        else map FrameJpg (range n) ++ [AudioMp3; OutputMp4])
  /\ audioContextClosed (events sess) = negb (outputLength sess =? 0)
  /\ downloadsOf (events sess)
     = (if outputLength sess =? 0 then [] else [downloadName (songTitle sess)]).
Proof.
  intros Henc Hff Hdec n.
  destruct (run_shape sess ff b Henc Hff Hdec) as [_ Hshape]. fold n in Hshape.
  rewrite <- frames_forget, <- deletedOf_forget, <- audioContextClosed_forget,
          <- downloadsOf_forget, Hshape.
  rewrite !framesOf_app, !deletedOf_app, !downloadsOf_app, !map_app.
  unfold audioContextClosed. rewrite !existsb_app.
  fold (audioContextClosed (flat_map (frameShape n) (range n))).
  rewrite framesOf_frames, deletedOf_frames, audioContextClosed_frames,
          downloadsOf_frames.
  destruct (outputLength sess =? 0).
  - cbn. rewrite app_nil_r. repeat split.
  - unfold finishShape.
    rewrite !framesOf_app, !deletedOf_app, !downloadsOf_app, !map_app, !existsb_app.
    rewrite framesOf_deletes, deletedOf_deletes, downloadsOf_deletes.
    cbn. rewrite !app_nil_r.
    repeat split. now rewrite orb_true_r.
Qed.

(** X4.  A completed export removes from the encoder's file system exactly
    the frame files it wrote, in the same order, then the audio file and the
    output file, and closes the audio context. *)
Theorem cleanup_deletes_written_frames (sess : Session) :
  Ready sess -> result sess = Some Completed ->
  deletedOf (events sess)
  = map FrameJpg (map fst (framesOf (events sess))) ++ [AudioMp3; OutputMp4]
  /\ audioContextClosed (events sess) = true.
Proof.
  intros Hready Hres.
  destruct (completed_inv sess Hready Hres) as (ff & b & Henc & Hdec & Hout).
  destruct (completed_files sess ff b Henc (ready_listener sess ff Hready Henc) Hdec)
    as (Hframes & Hdel & Hclosed & _).
  rewrite Hout in Hdel, Hclosed. now rewrite Hframes, Hdel, Hclosed.
Qed.

(** X5.  When the encoder's output is empty the export stops before its
    cleanup: every frame has been written, none is deleted, the audio and
    output files stay in the encoder's file system and the audio context is
    left open. *)
Theorem failed_export_leaves_files (sess : Session) (ff : FFmpeg)
    (b : Spectrum.AudioBuffer) :
  Ready sess -> encoder sess = Some ff -> decoded sess = Some b ->
  outputLength sess = 0 ->
  map fst (framesOf (events sess)) = range (Spectrum.totalFrames b fps)
  /\ deletedOf (events sess) = []
  /\ audioContextClosed (events sess) = false.
Proof.
  intros Hready Henc Hdec Hout.
  destruct (completed_files sess ff b Henc (ready_listener sess ff Hready Henc) Hdec)
    as (Hframes & Hdel & Hclosed & _).
  rewrite Hout in Hdel, Hclosed. now rewrite Hframes, Hdel, Hclosed.
Qed.

(** X6.  When the audio cannot be decoded the export fails before any frame
    is rendered: nothing is written to the encoder, nothing is downloaded,
    progress stops at 5, the user sees the generic alert, and the job is
    back to [idle] with [isExporting] false. *)
Theorem undecodable_audio_stops_early (sess : Session) (ff : FFmpeg) :
  encoder sess = Some ff -> decoded sess = None ->
  (exists error, result sess = Some (Failed error))
  /\ framesOf (events sess) = []
  /\ encoderCallsOf (events sess) = []
  /\ downloadsOf (events sess) = []
  /\ progressOf (events sess) = [0; 1; 2; 5]
  /\ alertsOf (events sess) = ["Video rendering failed. Please try again."%string]
  /\ stageAfter (exportStage sess) (events sess) = idle
  /\ exportingAfter false (events sess) = false.
Proof.
  intros Henc Hdec.
  destruct (run_undecodable sess ff Henc Hdec) as [Hres Hev].
  split; [eexists; exact Hres|]. rewrite Hev. repeat split.
Qed.


(** X8.  A click triggers a download exactly when the export completes, and
    then exactly one, named after the song title with the extension [.mp4]
    ([suno-video.mp4] when the title is empty). *)
Theorem download_iff_completed (sess : Session) :
  Ready sess ->
  downloadsOf (events sess)
  = match result sess with
    | Some Completed => [downloadName (songTitle sess)]
    | _ => []
    end
  /\ exists stem, stem <> ""%string
                  /\ downloadName (songTitle sess) = (stem ++ ".mp4")%string.
Proof.
  intros Hready. split.
  - destruct (encoder sess) as [ff|] eqn:Henc.
    + destruct (decoded sess) as [b|] eqn:Hdec.
      * destruct (run_shape sess ff b Henc (ready_listener sess ff Hready Henc) Hdec)
          as [Hres _].
        destruct (completed_files sess ff b Henc
                    (ready_listener sess ff Hready Henc) Hdec) as (_ & _ & _ & Hdl).
        rewrite Hres, Hdl. now destruct (outputLength sess =? 0).
      * destruct (run_undecodable sess ff Henc Hdec) as [Hres Hev].
        rewrite Hres, Hev. reflexivity.
    + destruct (run_not_started sess Henc) as [Hres _]. rewrite Hres.
      unfold encoder in Henc. unfold events, run, startRecording.
      destruct (ffmpegRef sess); [discriminate|].
      destruct (encoderLoads sess); [discriminate|]. reflexivity.
  - unfold downloadName. destruct (String.eqb_spec (songTitle sess) "") as [He|Hne].
    + exists "suno-video"%string. split; [discriminate|reflexivity].
    + exists (songTitle sess). split; [exact Hne|reflexivity].
Qed.

Lemma captureFrame_withProgress (sess : Session) (ticks : list Q) :
  captureFrame (withProgress sess ticks) = captureFrame sess.
Proof. reflexivity. Qed.

Lemma renderFrames_withProgress (ff : FFmpeg) (sess : Session) (ticks : list Q)
    (n : Z) (frames : list (list Z)) (js : JobState) :
  listenerStage ff <> encoding ->
  renderFrames ff (withProgress sess ticks) n frames js = renderFrames ff sess n frames js.
Proof.
  intros Hff. unfold renderFrames. run_job.
  cbn [withProgress songTitle outputLength encoderProgress refsAt].
  rewrite captureFrame_withProgress.
  rewrite !(bind_returned _ _ _ _ _
              (forEach_total _ (afterFrame sess (refsAt sess (awaited js)) n frames)
                 (captureFrame_returns sess _ n frames) _ _)).
  run_job.
  rewrite !(bind_returned _ _ _ _ _ (listener_silent ff _ _ Hff)).
  reflexivity.
Qed.

(** X9.  The progress callbacks of the encoder never reach the interface:
    the listener tests the stage captured when the encoder was loaded, so a
    run is the same whatever progress the encoder reports while encoding. *)
Theorem encoder_progress_is_ignored (sess : Session) (ticks : list Q) :
  Ready sess -> run (withProgress sess ticks) = run sess.
Proof.
  intros Hready. unfold run, startRecording.
  cbn [withProgress ffmpegRef encoderLoads exportStage].
  destruct (encoder sess) as [ff|] eqn:Henc.
  - pose proof (ready_listener sess ff Hready Henc) as Hff.
    unfold encoder in Henc.
    assert (Hoff : forall js,
      renderOffline ff (withProgress sess ticks) js = renderOffline ff sess js).
    { intros js.
      unfold renderOffline, loadBackground, loadAlbumArt, decodeAudioData.
      cbn [withProgress background albumArt decoded].
      destruct (background sess), (albumArt sess), (decoded sess);
        run_job; try reflexivity; now apply renderFrames_withProgress. }
    destruct (ffmpegRef sess) as [ff'|];
      [injection Henc as -> | destruct (encoderLoads sess); [injection Henc as <-|discriminate]];
      run_job; unfold tryCatch, bind; now rewrite Hoff.
  - unfold encoder in Henc.
    destruct (ffmpegRef sess); [discriminate|].
    destruct (encoderLoads sess); [discriminate|]. reflexivity.
Qed.

End RunOutcomes.

Section RunOutcomeExamples.
Import JS Canvas ExportJob Pipeline Cleanup.

Lemma cleanup_deletes_written_frames_witness :
  let sess := Samples.session 1024 (fun _ => Samples.refs) in
  deletedOf (events (M := coarseMath) sess)
  = map FrameJpg (map fst (framesOf (events (M := coarseMath) sess)))
    ++ [AudioMp3; OutputMp4]
  /\ audioContextClosed (events (M := coarseMath) sess) = true.
Proof.
  apply (cleanup_deletes_written_frames (M := coarseMath)
           (Samples.session 1024 (fun _ => Samples.refs))).
  - apply sample_ready.
  - vm_compute. reflexivity.
Defined.

Lemma failed_export_leaves_files_witness :
  let sess := Samples.session 0 (fun _ => Samples.refs) in
  map fst (framesOf (events (M := coarseMath) sess))
  = range (Spectrum.totalFrames Samples.shortClip fps)
  /\ deletedOf (events (M := coarseMath) sess) = []
  /\ audioContextClosed (events (M := coarseMath) sess) = false.
Proof.
  apply (failed_export_leaves_files (M := coarseMath)
           (Samples.session 0 (fun _ => Samples.refs)) (loadFFmpeg idle)
           Samples.shortClip); try reflexivity.
  apply sample_ready.
Defined.

Lemma undecodable_audio_stops_early_witness :
  framesOf (events (M := coarseMath) MoreSamples.undecodable) = []
  /\ progressOf (events (M := coarseMath) MoreSamples.undecodable) = [0; 1; 2; 5].
Proof.
  destruct (undecodable_audio_stops_early (M := coarseMath) MoreSamples.undecodable
              (loadFFmpeg idle) eq_refl eq_refl)
    as (_ & Hframes & _ & _ & Hprogress & _).
  split; assumption.
Defined.


Lemma download_iff_completed_witness :
  downloadsOf (events (M := coarseMath) MoreSamples.undecodable) = [].
Proof.
  destruct (download_iff_completed (M := coarseMath) MoreSamples.undecodable)
    as [H _].
  - split; [reflexivity|]. intros ff Hff. cbn in Hff. now injection Hff as <-.
  - exact H.
Defined.

Lemma encoder_progress_is_ignored_witness :
  run (M := coarseMath)
      (withProgress (Samples.session 1024 (fun _ => Samples.refs)) [0.1%Q; 0.9%Q])
  = run (M := coarseMath) (Samples.session 1024 (fun _ => Samples.refs)).
Proof.
  apply (encoder_progress_is_ignored (M := coarseMath)
           (Samples.session 1024 (fun _ => Samples.refs)) [0.1%Q; 0.9%Q]).
  apply sample_ready.
Defined.

End RunOutcomeExamples.

(** ** The order and the content of a frame *)

Section FrameOrder.
Import JS Canvas Render Pipeline FrameReading.
Context {M : MathLib}.

Lemma Between_upper (l : list Z) : forall lo hi hi',
  hi <= hi' -> Between lo hi l -> Between lo hi' l.
Proof.
  induction l as [|x l IH]; intros lo hi hi' Hle H; cbn in *; [lia|].
  split; [tauto|]. apply IH with hi; tauto.
Qed.

Lemma Staged_le (lo hi : Z) {A} (c : Draw A) : Staged lo hi c -> lo <= hi.
Proof.
  intros H. destruct (H (mkWorld (fun _ => 0%Q) 0 [])) as [added [_ B]].
  now apply Between_le in B.
Qed.

Lemma Staged_weaken (lo lo' hi hi' : Z) {A} (c : Draw A) :
  lo' <= lo -> hi <= hi' -> Staged lo hi c -> Staged lo' hi' c.
Proof.
  intros Hlo Hhi H world. destruct (H world) as [added [E B]].
  exists added. split; [exact E|].
  apply Between_lower with lo; [exact Hlo|]. now apply Between_upper with hi.
Qed.

Lemma Staged_silent (lo hi : Z) {A} (c : Draw A) :
  (forall world, canvas (snd (c world)) = canvas world) -> lo <= hi ->
  Staged lo hi c.
Proof.
  intros H Hle world. exists []. rewrite app_nil_r. split; [apply H|exact Hle].
Qed.

Lemma Staged_emit (lo hi : Z) (op : Op) :
  lo <= rank op <= hi -> Staged lo hi (emit op).
Proof. intros H world. exists [op]. split; [reflexivity|]. cbn. lia. Qed.

Lemma Staged_bind (lo mid hi : Z) {A B} (c : Draw A) (k : A -> Draw B) :
  Staged lo mid c -> (forall a, Staged mid hi (k a)) -> Staged lo hi (bind c k).
Proof.
  intros Hc Hk world. unfold bind.
  destruct (Hc world) as [added1 [E1 B1]].
  destruct (c world) as [a world1]. cbn [snd] in E1.
  destruct (Hk a world1) as [added2 [E2 B2]].
  exists (added1 ++ added2). split.
  - rewrite E2, E1. now rewrite app_assoc.
  - rewrite map_app. now apply Between_app with mid.
Qed.

Lemma Staged_when (lo hi : Z) (b : bool) (c : Draw unit) :
  Staged lo hi c -> Staged lo hi (when b c).
Proof.
  intros H. destruct b; [exact H|].
  apply Staged_silent; [reflexivity|]. now apply Staged_le in H.
Qed.

Lemma Staged_forEach (lo hi : Z) {A} (body : A -> Draw unit) :
  (forall a, Staged hi hi (body a)) -> lo <= hi ->
  forall l, Staged lo hi (forEach l body).
Proof.
  intros Hb Hle l. apply Staged_weaken with hi hi; [exact Hle|lia|].
  induction l as [|a l IH]; cbn [forEach].
  - apply Staged_silent; [reflexivity|lia].
  - apply Staged_bind with hi; [apply Hb | intros _; exact IH].
Qed.

Lemma Staged_glitchTriggered (lo hi : Z) (eff : Effects.EffectConfig)
    (ints : Intensities.EffectIntensities) :
  lo <= hi -> Staged lo hi (glitchTriggered eff ints).
Proof.
  intros H. apply Staged_silent; [|exact H].
  intros world. unfold glitchTriggered. now destruct (Effects.glitch eff).
Qed.

Lemma Staged_particles (lo hi w h : Z) (time bass : Q) (count : Z)
    (color : string) :
  lo <= 4 <= hi -> Staged lo hi (Particles.drawParticles w h time bass count color).
Proof.
  intros H world. rewrite drawParticles_run. cbn [snd canvas].
  eexists. split; [reflexivity|].
  apply Between_lower with 4; [lia|]. apply Between_upper with 4; [lia|].
  induction (Particles.particles w h time bass count color) as [|arc l IH];
    cbn; [lia|]. split; [lia|exact IH].
Qed.

Lemma Staged_rain (lo hi w h : Z) (data : list Z) (time : Q) (color : string) :
  lo <= 3 <= hi -> Staged lo hi (drawDigitalRain w h data time color).
Proof.
  intros H. apply Staged_weaken with 3 3; [lia|lia|].
  unfold drawDigitalRain.
  apply Staged_forEach; [|lia]. intros i.
  apply Staged_forEach; [|lia]. intros j.
  apply Staged_bind with 3.
  - apply Staged_silent; [reflexivity|lia].
  - intros r. apply Staged_emit. cbn. lia.
Qed.

Ltac staged :=
  repeat first
    [ apply Staged_emit; cbn [rank]; lia
    | apply Staged_silent; [intros ?; reflexivity | cbn [rank]; lia]
    | apply Staged_glitchTriggered; cbn [rank]; lia
    | apply Staged_particles; lia
    | apply Staged_rain; lia
    | apply Staged_when
    | apply Staged_forEach; [intros ? | lia]
    | match goal with
      | |- Staged ?lo ?hi (bind (emit ?op) _) =>
          apply Staged_bind with (mid := rank op); [|intros ?]
      | |- Staged ?lo ?hi (bind _ _) =>
          apply Staged_bind with (mid := lo); [|intros ?]
      | |- Staged _ _ (if ?b then _ else _) => destruct b
      end ].

Ltac upto m := apply Staged_bind with (mid := m); [staged | intros ?].

Lemma renderOfflineFrame_staged
    (cfg : Config.VisualizerConfig) (eff : Effects.EffectConfig)
    (ints : Intensities.EffectIntensities) (texts : list Config.TextLayer)
    (bgSource albumImage : bool) (time : Q) (dataArray : list Z) :
  Staged 0 20
    (renderOfflineFrame cfg eff ints texts bgSource albumImage time dataArray).
Proof.
  unfold renderOfflineFrame. cbv zeta.
  upto 0. upto 1. upto 2.
  apply Staged_bind with (mid := 3);
    [destruct (Config.preset cfg); staged | intros ?].
  upto 4. upto 5. upto 6. upto 7. upto 8. upto 8. upto 9. upto 9. upto 11.
  upto 14. upto 15. upto 16. upto 17. upto 18. upto 19. staged.
Qed.

Lemma renderLoopFrame_staged
    (cfg : Config.VisualizerConfig) (eff : Effects.EffectConfig)
    (ints : Intensities.EffectIntensities) (texts : list Config.TextLayer)
    (width height : Z) (bgSource preloadedImage urlImageComplete : bool)
    (time : Q) (dataArray timeDomain : list Z) :
  Staged 0 20
    (renderLoopFrame cfg eff ints texts width height bgSource preloadedImage
       urlImageComplete time dataArray timeDomain).
Proof.
  unfold renderLoopFrame. cbv zeta.
  upto 0. upto 1. upto 2.
  apply Staged_bind with (mid := 3);
    [destruct (Config.preset cfg); staged | intros ?].
  upto 4. upto 5. upto 6. upto 7. upto 8. upto 8. upto 9. upto 9. upto 11.
  upto 14. upto 15. upto 16. upto 17. upto 18. upto 19. staged.
Qed.

Lemma Staged_drawn (lo hi : Z) (c : Draw unit) (source : nat -> Q) (calls : nat) :
  Staged lo hi c -> nondecreasing (map rank (drawn source calls c)).
Proof.
  intros H. unfold drawn.
  destruct (H (mkWorld source calls [])) as [added [E B]].
  rewrite E. cbn [canvas app]. now apply Between_nondecreasing with lo hi.
Qed.

(** X10.  Whatever the configuration, the effects, the data and the values
    of [Math.random], the steps of a frame, offline and live, come in the
    order of the pipeline: clear, background, preset shake, preset,
    particles, album art, pixelate, text, then scanlines, colour shift,
    glitch, CCTV, bloom, film grain, strobe, vignette, hue shift and
    letterbox.  In particular text is never pixelated, and every later
    effect is applied over the text. *)
Theorem frame_steps_in_pipeline_order
    (cfg : Config.VisualizerConfig) (eff : Effects.EffectConfig)
    (ints : Intensities.EffectIntensities) (texts : list Config.TextLayer)
    (width height : Z) (bgSource albumImage preloadedImage urlImageComplete : bool)
    (time : Q) (dataArray timeDomain : list Z) (source : nat -> Q) (calls : nat) :
  nondecreasing
    (map rank
       (drawn source calls
          (renderOfflineFrame cfg eff ints texts bgSource albumImage time dataArray)))
  /\ nondecreasing
       (map rank
          (drawn source calls
             (renderLoopFrame cfg eff ints texts width height bgSource
                preloadedImage urlImageComplete time dataArray timeDomain))).
Proof.
  split; apply Staged_drawn with 0 20.
  - apply renderOfflineFrame_staged.
  - apply renderLoopFrame_staged.
Qed.

End FrameOrder.

Section FrameContent.
Import JS Canvas Render Pipeline FrameReading.
Context {M : MathLib}.

Lemma OnlyDraws_silent (P : Op -> Prop) {A} (c : Draw A) :
  (forall world, canvas (snd (c world)) = canvas world) -> OnlyDraws P c.
Proof. intros H world. exists []. rewrite app_nil_r. split; [apply H|constructor]. Qed.

Lemma OnlyDraws_glitchTriggered (P : Op -> Prop) (eff : Effects.EffectConfig)
    (ints : Intensities.EffectIntensities) :
  OnlyDraws P (glitchTriggered eff ints).
Proof.
  apply OnlyDraws_silent. intros world. unfold glitchTriggered.
  now destruct (Effects.glitch eff).
Qed.

(** Every step of [c] passes the test [t]. *)
Ltac passes :=
  repeat first
    [ apply OnlyDraws_particles; intros; reflexivity
    | apply OnlyDraws_rain; intros; reflexivity
    | apply OnlyDraws_emit; reflexivity
    | apply OnlyDraws_silent; intros ?; reflexivity
    | apply OnlyDraws_glitchTriggered
    | apply OnlyDraws_when
    | apply OnlyDraws_forEach; intros ?
    | apply OnlyDraws_bind; [|intros ?]
    | match goal with
      | |- OnlyDraws _ (if ?b then _ else _) => destruct b
      end ].









(** X12.  An exported frame never contains what only the preview draws:
    the displaced glitch slice, the date stamp and the REC mark of the CCTV
    effect, and the placeholder disc of the album-art ring. *)
Theorem export_has_no_preview_only_steps
    (cfg : Config.VisualizerConfig) (eff : Effects.EffectConfig)
    (ints : Intensities.EffectIntensities) (texts : list Config.TextLayer)
    (bgSource albumImage : bool) (time : Q) (dataArray : list Z)
    (source : nat -> Q) (calls : nat) :
  Forall (fun op => liveOnly op = false)
    (drawn source calls
       (renderOfflineFrame cfg eff ints texts bgSource albumImage time dataArray)).
Proof.
  apply OnlyDraws_drawn. unfold renderOfflineFrame. cbv zeta.
  do 3 (apply OnlyDraws_bind; [passes | intros ?]).
  apply OnlyDraws_bind; [destruct (Config.preset cfg); passes | intros ?].
  passes.
Qed.

Lemma pixelate_cells (width height : Z) (intensity : Q) :
  (0 <= intensity <= 1)%Q ->
  let pixelSize := Z.max 4 (Math_floor (16 * intensity)) in
  pixelGrid width height
    (Pixelate pixelSize
       (Math_floor (inject_Z width / inject_Z pixelSize))
       (Math_floor (inject_Z height / inject_Z pixelSize))).
Proof.
  intros [H0 H1] pixelSize. unfold pixelGrid, Math_floor.
  assert (Hfloor : Qfloor (16 * intensity) <= 16).
  { change 16 with (Qfloor (inject_Z 16)) at 2.
    apply Qfloor_resp_le.
    change (inject_Z 16) with (16 * 1)%Q.
    apply Qmult_le_l; [reflexivity|exact H1]. }
  assert (Hsize : 4 <= pixelSize <= 16) by (unfold pixelSize, Math_floor; lia).
  split; [exact Hsize|].
  split; apply Qfloor_div_Z; lia.
Qed.

Ltac gridded Hint :=
  repeat first
    [ apply OnlyDraws_particles; intros; exact I
    | apply OnlyDraws_rain; intros; exact I
    | apply OnlyDraws_emit; exact I
    | apply OnlyDraws_emit; apply pixelate_cells; exact Hint
    | apply OnlyDraws_silent; intros ?; reflexivity
    | apply OnlyDraws_glitchTriggered
    | apply OnlyDraws_when
    | apply OnlyDraws_forEach; intros ?
    | apply OnlyDraws_bind; [|intros ?]
    | match goal with
      | |- OnlyDraws _ (if ?b then _ else _) => destruct b
      end ].

(** X13.  With the pixelate slider in its range [0, 1], every pixelate step,
    offline and live, uses cells of 4 to 16 pixels and a reduced canvas of
    whole cells (the frame size divided by the cell size, rounded down): at
    1920 x 1080 never smaller than 120 x 67. *)
Theorem pixelate_cell_size_bounded
    (cfg : Config.VisualizerConfig) (eff : Effects.EffectConfig)
    (ints : Intensities.EffectIntensities) (texts : list Config.TextLayer)
    (width height : Z) (bgSource albumImage preloadedImage urlImageComplete : bool)
    (time : Q) (dataArray timeDomain : list Z) (source : nat -> Q) (calls : nat) :
  (0 <= Intensities.pixelate ints <= 1)%Q ->
  Forall (pixelGrid 1920 1080)
    (drawn source calls
       (renderOfflineFrame cfg eff ints texts bgSource albumImage time dataArray))
  /\ Forall (pixelGrid width height)
       (drawn source calls
          (renderLoopFrame cfg eff ints texts width height bgSource
             preloadedImage urlImageComplete time dataArray timeDomain))
  /\ (forall pixelSize smallW smallH,
        pixelGrid 1920 1080 (Pixelate pixelSize smallW smallH) ->
        120 <= smallW <= 480 /\ 67 <= smallH <= 270).
Proof.
  intros Hint. split; [|split].
  - apply OnlyDraws_drawn. unfold renderOfflineFrame. cbv zeta.
    do 3 (apply OnlyDraws_bind; [gridded Hint | intros ?]).
    apply OnlyDraws_bind; [destruct (Config.preset cfg); gridded Hint | intros ?].
    gridded Hint.
  - apply OnlyDraws_drawn. unfold renderLoopFrame, drawAlbumArt. cbv zeta.
    do 3 (apply OnlyDraws_bind; [gridded Hint | intros ?]).
    apply OnlyDraws_bind; [destruct (Config.preset cfg); gridded Hint | intros ?].
    gridded Hint.
  - intros p sw sh (Hp & -> & ->). split; split.
    + apply Z.div_le_lower_bound; lia.
    + apply Z.div_le_upper_bound; lia.
    + apply Z.div_le_lower_bound; lia.
    + apply Z.div_le_upper_bound; lia.
Qed.

Lemma randomFree_inv (cfg : Config.VisualizerConfig) (eff : Effects.EffectConfig) :
  randomFree cfg eff = true ->
  Effects.shake eff = false /\ Effects.glitch eff = false
  /\ Effects.filmGrain eff = false /\ Config.preset cfg <> Config.Digital_Rain.
Proof.
  unfold randomFree. intros H.
  apply andb_true_iff in H as [H Hp]. apply andb_true_iff in H as [H Hf].
  apply andb_true_iff in H as [Hs Hg].
  apply negb_true_iff in Hs, Hg, Hf, Hp.
  repeat split; try assumption. intros Heq. now rewrite Heq in Hp.
Qed.

Lemma Corr_steady_drawn (c : Draw unit) (source source' : nat -> Q)
    (calls calls' : nat) :
  Corr (fun op => [op]) false false c c ->
  drawn source calls c = drawn source' calls' c.
Proof.
  intros H. unfold drawn.
  destruct (H (mkWorld source calls []) (mkWorld source' calls' [])) as [_ [R _]].
  - split; [reflexivity|discriminate].
  - rewrite !(flat_map_single (fun op => op)), !map_id in R. exact R.
Qed.

Ltac steady :=
  repeat first
    [ apply Corr_particles
    | apply Corr_emit; reflexivity
    | apply Corr_ret
    | apply Corr_when
    | apply Corr_forEach; intros ?
    | apply Corr_bind_ret
    | apply Corr_bind with (mid := false); [|intros ?]
    | match goal with
      | |- Corr _ _ _ (if ?b then _ else _) _ => destruct b
      end ].

Lemma renderOfflineFrame_steady
    (cfg : Config.VisualizerConfig) (eff : Effects.EffectConfig)
    (ints : Intensities.EffectIntensities) (texts : list Config.TextLayer)
    (bgSource albumImage : bool) (time : Q) (dataArray : list Z) :
  randomFree cfg eff = true ->
  Corr (fun op => [op]) false false
    (renderOfflineFrame cfg eff ints texts bgSource albumImage time dataArray)
    (renderOfflineFrame cfg eff ints texts bgSource albumImage time dataArray).
Proof.
  intros H. destruct (randomFree_inv cfg eff H) as (Hs & Hg & Hf & Hp).
  unfold renderOfflineFrame, glitchTriggered. cbv zeta. rewrite Hs, Hg, Hf.
  cbn [andb].
  do 3 (apply Corr_bind with (mid := false); [steady | intros ?]).
  apply Corr_bind with (mid := false);
    [destruct (Config.preset cfg); try congruence; steady | intros ?].
  steady.
Qed.

Lemma renderLoopFrame_steady
    (cfg : Config.VisualizerConfig) (eff : Effects.EffectConfig)
    (ints : Intensities.EffectIntensities) (texts : list Config.TextLayer)
    (width height : Z) (bgSource preloadedImage urlImageComplete : bool)
    (time : Q) (dataArray timeDomain : list Z) :
  randomFree cfg eff = true ->
  Corr (fun op => [op]) false false
    (renderLoopFrame cfg eff ints texts width height bgSource preloadedImage
       urlImageComplete time dataArray timeDomain)
    (renderLoopFrame cfg eff ints texts width height bgSource preloadedImage
       urlImageComplete time dataArray timeDomain).
Proof.
  intros H. destruct (randomFree_inv cfg eff H) as (Hs & Hg & Hf & Hp).
  unfold renderLoopFrame, glitchTriggered, drawAlbumArt. cbv zeta.
  rewrite Hs, Hg, Hf. cbn [andb].
  do 3 (apply Corr_bind with (mid := false); [steady | intros ?]).
  apply Corr_bind with (mid := false);
    [destruct (Config.preset cfg); try congruence; steady | intros ?].
  steady.
Qed.

(** X14.  With camera shake, glitch and film grain off and a preset other
    than the glyph rain, a frame does not depend on [Math.random]: rendering
    the same frame again, offline or live, gives the same steps with the
    same values. *)
Theorem frame_without_random_is_reproducible
    (cfg : Config.VisualizerConfig) (eff : Effects.EffectConfig)
    (ints : Intensities.EffectIntensities) (texts : list Config.TextLayer)
    (width height : Z) (bgSource albumImage preloadedImage urlImageComplete : bool)
    (time : Q) (dataArray timeDomain : list Z)
    (source source' : nat -> Q) (calls calls' : nat) :
  randomFree cfg eff = true ->
  drawn source calls
    (renderOfflineFrame cfg eff ints texts bgSource albumImage time dataArray)
  = drawn source' calls'
      (renderOfflineFrame cfg eff ints texts bgSource albumImage time dataArray)
  /\ drawn source calls
       (renderLoopFrame cfg eff ints texts width height bgSource preloadedImage
          urlImageComplete time dataArray timeDomain)
     = drawn source' calls'
         (renderLoopFrame cfg eff ints texts width height bgSource preloadedImage
            urlImageComplete time dataArray timeDomain).
Proof.
  intros H. split; apply Corr_steady_drawn.
  - now apply renderOfflineFrame_steady.
  - now apply renderLoopFrame_steady.
Qed.




End FrameContent.

(** ** The particles of a frame *)

Section ParticleBounds.
Import JS Canvas Render FrameReading.
Context {M : MathLib}.
Local Open Scope Q_scope.

Lemma rem_nonneg (x y : Q) : 0 <= x -> 0 < y -> 0 <= rem x y < y.
Proof.
  intros Hx Hy. unfold rem, trunc.
  assert (Hq : 0 <= x / y).
  { apply Qle_shift_div_l; [exact Hy|]. lra. }
  assert (Hxy : x / y * y == x) by (field; lra).
  destruct (Qle_bool 0 (x / y)) eqn:Hb.
  - pose proof (Qfloor_le (x / y)) as Hlo.
    pose proof (Qlt_floor (x / y)) as Hhi.
    rewrite inject_Z_plus in Hhi.
    change (inject_Z 1) with 1 in Hhi.
    split; nra.
  - apply Qle_bool_iff in Hq. congruence.
Qed.

Lemma rem_above (x y : Q) : 0 < y -> - y < rem x y.
Proof.
  intros Hy. unfold rem, trunc.
  assert (Hxy : x / y * y == x) by (field; lra).
  destruct (Qle_bool 0 (x / y)) eqn:Hb.
  - apply Qle_bool_iff in Hb.
    pose proof (Qfloor_le (x / y)) as Hlo. nra.
  - pose proof (Qceiling_lt (x / y)) as Hhi.
    unfold Zminus in Hhi. rewrite inject_Z_plus in Hhi.
    change (inject_Z (- (1))) with (-1) in Hhi.
    set (q := x / y) in *. set (c := inject_Z (Qceiling q)) in *.
    assert (0 < (q - c + 1) * y) by (apply Qmult_lt_0_compat; lra).
    lra.
Qed.

(** [((x % y) + y) % y] *)
Lemma positive_rem (x y : Q) : 0 < y -> 0 <= rem (rem x y + y) y < y.
Proof.
  intros Hy. apply rem_nonneg; [|exact Hy].
  pose proof (rem_above x y Hy). lra.
Qed.

Lemma floor_shares (count : Z) :
  (0 <= count ->
   Math_floor (inject_Z count * 0.4) + Math_floor (inject_Z count * 0.35)
   + Math_floor (inject_Z count * 0.15) + Math_floor (inject_Z count * 0.1)
   <= count)%Z.
Proof.
  intros Hc. unfold Math_floor. rewrite Zle_Qle, !inject_Z_plus.
  pose proof (Qfloor_le (inject_Z count * 0.4)).
  pose proof (Qfloor_le (inject_Z count * 0.35)).
  pose proof (Qfloor_le (inject_Z count * 0.15)).
  pose proof (Qfloor_le (inject_Z count * 0.1)).
  lra.
Qed.

Lemma floor_share_nonpos (count : Z) (share : Q) :
  (count <= 0)%Z -> 0 <= share -> (Math_floor (inject_Z count * share) <= 0)%Z.
Proof.
  intros Hc Hs. unfold Math_floor.
  change 0%Z with (Qfloor (inject_Z 0)). apply Qfloor_resp_le.
  rewrite Zle_Qle in Hc. change (inject_Z 0) with 0 in *. nra.
Qed.

Lemma floor_share_nonneg (count : Z) (share : Q) :
  (0 <= count)%Z -> 0 <= share -> (0 <= Math_floor (inject_Z count * share))%Z.
Proof.
  intros Hc Hs. unfold Math_floor.
  change 0%Z with (Qfloor (inject_Z 0)). apply Qfloor_resp_le.
  rewrite Zle_Qle in Hc. change (inject_Z 0) with 0 in *. nra.
Qed.

Lemma length_flat_map_option {A B} (g : A -> option B) (l : list A) :
  (length (flat_map (fun a => match g a with Some b => [b] | None => [] end) l)
   <= length l)%nat.
Proof.
  induction l as [|a l IH]; [reflexivity|].
  cbn [flat_map]. rewrite length_app. destruct (g a); cbn; lia.
Qed.

(** X15.  [config.particleCount] is an upper bound on the particles of a
    frame, not their number: the four populations take the floors of 40, 35,
    15 and 10 percent of it, and a burst particle is skipped while it is too
    small or too faint.  A count of zero or less draws none. *)
Theorem particle_count_is_upper_bound (w h : Z) (time bass : Q) (count : Z)
    (color : string) (source : nat -> Q) (calls : nat) :
  (length (drawn source calls (Particles.drawParticles w h time bass count color))
   <= Z.to_nat count)%nat.
Proof.
  unfold drawn. rewrite drawParticles_run. cbn [snd canvas app].
  rewrite length_map. unfold Particles.particles.
  rewrite !length_app, !length_map, !range_length.
  pose proof (length_flat_map_option (Particles.burstParticle w h time bass count color)
                (range (Particles.burstCount count))) as Hburst.
  rewrite range_length in Hburst.
  unfold Particles.risingCount, Particles.orbitalCount, Particles.dustCount,
         Particles.burstCount in *.
  destruct (Z_le_gt_dec 0 count) as [Hc|Hc].
  - pose proof (floor_shares count Hc).
    pose proof (floor_share_nonneg count 0.4 Hc ltac:(discriminate)).
    pose proof (floor_share_nonneg count 0.35 Hc ltac:(discriminate)).
    pose proof (floor_share_nonneg count 0.15 Hc ltac:(discriminate)).
    pose proof (floor_share_nonneg count 0.1 Hc ltac:(discriminate)).
    lia.
  - assert (Hneg : (count <= 0)%Z) by lia.
    pose proof (floor_share_nonpos count 0.4 Hneg ltac:(discriminate)).
    pose proof (floor_share_nonpos count 0.35 Hneg ltac:(discriminate)).
    pose proof (floor_share_nonpos count 0.15 Hneg ltac:(discriminate)).
    pose proof (floor_share_nonpos count 0.1 Hneg ltac:(discriminate)).
    lia.
Qed.

Lemma mod_share (i n : Z) : (0 < n)%Z -> 0 <= inject_Z (i mod n).
Proof.
  intros Hn. change 0 with (inject_Z 0). rewrite <- Zle_Qle.
  apply Z.mod_pos_bound. exact Hn.
Qed.

Section Bounded.
Variables (w h : Z) (time bass : Q) (count : Z) (color : string).
Hypothesis sin_bounded : forall x, -1 <= Math_sin x <= 1.
Hypothesis bass_byte : 0 <= bass <= 255.
Hypothesis time_nonneg : 0 <= time.

Lemma normBass_unit : 0 <= bass / 255 <= 1.
Proof.
  split.
  - apply Qle_shift_div_l; [reflexivity|lra].
  - apply Qle_shift_div_r; [reflexivity|lra].
Qed.

Lemma rising_drawable (i : Z) :
  drawable (Particles.risingParticle w h time bass color i).
Proof.
  unfold drawable, Particles.risingParticle. cbn [arcRadius globalAlpha].
  pose proof (mod_share i 4 eq_refl) as Hm.
  pose proof (sin_bounded (time * 8 + inject_Z i * 127.1)) as Hs.
  set (s := Math_sin (time * 8 + inject_Z i * 127.1)) in *.
  set (m := inject_Z (i mod 4)) in *.
  pose proof normBass_unit as Hn.
  set (n := bass / 255) in *.
  split; [lra|]. split; nra.
Qed.

Lemma burst_drawable (i : Z) (arc : ParticleArc) :
  (0 <= i)%Z ->
  Particles.burstParticle w h time bass count color i = Some arc -> drawable arc.
Proof.
  intros Hi. unfold Particles.burstParticle.
  set (phase := rem (time * 1.5 + inject_Z i * 234.5 * 0.01) 3).
  assert (Hphase : 0 <= phase < 3).
  { apply rem_nonneg; [|reflexivity].
    rewrite Zle_Qle in Hi. change (inject_Z 0) with 0 in Hi. nra. }
  pose proof normBass_unit as Hn.
  set (n := bass / 255) in *.
  destruct (Qgt_bool ((1 - phase / 3) * (3 + n * 4)) 0.5) eqn:Hsize;
    [|discriminate].
  destruct (Qgt_bool ((1 - phase / 3) * (0.6 + n * 0.4)) 0.1) eqn:Halpha;
    [|discriminate].
  cbn [andb]. intros [= <-]. unfold drawable. cbn [arcRadius globalAlpha].
  unfold Qgt_bool in Hsize, Halpha.
  apply negb_true_iff in Hsize, Halpha.
  assert (Hs : ~ (1 - phase / 3) * (3 + n * 4) <= 0.5).
  { intros Hle. apply Qle_bool_iff in Hle. congruence. }
  assert (Ha : ~ (1 - phase / 3) * (0.6 + n * 0.4) <= 0.1).
  { intros Hle. apply Qle_bool_iff in Hle. congruence. }
  apply Qnot_le_lt in Hs, Ha.
  assert (Hq : 0 <= phase / 3 <= 1).
  { split.
    - apply Qle_shift_div_l; [reflexivity|lra].
    - apply Qle_shift_div_r; [reflexivity|lra]. }
  set (q := phase / 3) in *.
  assert (Hp : 0 <= 1 - q <= 1) by (split; lra).
  set (p := 1 - q) in *.
  split; [lra|]. split; [lra|nra].
Qed.

Lemma orbital_drawable (i : Z) :
  drawable (Particles.orbitalParticle w h time bass count color i).
Proof.
  unfold drawable, Particles.orbitalParticle. cbn [arcRadius globalAlpha].
  pose proof (sin_bounded (time * 12 + inject_Z i * 5)) as Hs.
  pose proof normBass_unit as Hn.
  set (n := bass / 255) in *.
  split; [|split]; lra.
Qed.

Lemma dust_drawable (i : Z) :
  drawable (Particles.dustParticle w h time bass i).
Proof.
  unfold drawable, Particles.dustParticle. cbn [arcRadius globalAlpha].
  pose proof (sin_bounded (time * 3 + inject_Z i * 567.8)) as Hs.
  pose proof normBass_unit as Hn.
  set (n := bass / 255) in *.
  split; [|split]; lra.
Qed.

Lemma particles_drawable :
  Forall drawable (Particles.particles w h time bass count color).
Proof.
  unfold Particles.particles.
  apply Forall_app; split; [|apply Forall_app; split; [|apply Forall_app; split]].
  - apply Forall_forall. intros arc Harc. apply in_map_iff in Harc.
    destruct Harc as [i [<- _]]. apply rising_drawable.
  - apply Forall_forall. intros arc Harc. apply in_flat_map in Harc.
    destruct Harc as [i [Hi Harc]]. apply range_In in Hi.
    destruct (Particles.burstParticle w h time bass count color i) as [arc'|] eqn:Hb;
      [|contradiction].
    destruct Harc as [<-|[]]. apply (burst_drawable i); [lia|exact Hb].
  - apply Forall_forall. intros arc Harc. apply in_map_iff in Harc.
    destruct Harc as [i [<- _]]. apply orbital_drawable.
  - apply Forall_forall. intros arc Harc. apply in_map_iff in Harc.
    destruct Harc as [i [<- _]]. apply dust_drawable.
Qed.

End Bounded.

(** X16.  For a sine within [-1, 1], a bass level within the byte range and
    a time that is not negative, every particle [drawParticles] draws has a
    positive radius (so [ctx.arc] cannot throw) and an alpha within [0, 1]. *)
Theorem particles_are_drawable (w h : Z) (time bass : Q) (count : Z)
    (color : string) (source : nat -> Q) (calls : nat) :
  (forall x, -1 <= Math_sin x <= 1) -> 0 <= bass <= 255 -> 0 <= time ->
  exists arcs,
    drawn source calls (Particles.drawParticles w h time bass count color)
    = map ParticleFill arcs
    /\ Forall drawable arcs.
Proof.
  intros Hsin Hbass Htime.
  exists (Particles.particles w h time bass count color). split.
  - unfold drawn. now rewrite drawParticles_run.
  - now apply particles_drawable.
Qed.

(** X17.  Whatever sine and cosine return, the dust particles stay between
    the top and the bottom of the frame (the positive-remainder idiom gives
    [0 <= y < h]), and a rising particle is never lower than the bottom edge
    nor more than 100 pixels above the top. *)
Theorem particles_stay_in_frame_vertically (w h : Z) (time bass : Q)
    (color : string) (i : Z) :
  (0 < h)%Z -> 0 <= time -> (0 <= i)%Z ->
  0 <= arcY (Particles.dustParticle w h time bass i) < inject_Z h
  /\ -100 < arcY (Particles.risingParticle w h time bass color i) <= inject_Z h.
Proof.
  intros Hh Ht Hi.
  assert (HH : 0 < inject_Z h).
  { change 0 with (inject_Z 0). now rewrite <- Zlt_Qlt. }
  assert (Hi' : 0 <= inject_Z i).
  { change 0 with (inject_Z 0). now rewrite <- Zle_Qle. }
  split.
  - unfold Particles.dustParticle. cbn [arcY]. now apply positive_rem.
  - unfold Particles.risingParticle. cbn [arcY].
    pose proof (mod_share i 7 eq_refl) as Hm.
    set (m := inject_Z (i mod 7)) in *.
    assert (Harg : 0 <= time * (20 + m * 15) + inject_Z i * 127.1 * 10) by nra.
    pose proof (rem_nonneg _ (inject_Z h + 100) Harg ltac:(lra)) as Hrem.
    split; lra.
Qed.

End ParticleBounds.

(** ** Text layers *)

Section TextLayerFacts.
Import Config TextLayers.

Lemma removeTextLayer_app (l1 l2 : list TextLayer) (i : string) :
  removeTextLayer (l1 ++ l2) i = removeTextLayer l1 i ++ removeTextLayer l2 i.
Proof. apply filter_app. Qed.

Lemma removeTextLayer_fresh (layers : list TextLayer) (i : string) :
  Forall (fun l => id l <> i) layers -> removeTextLayer layers i = layers.
Proof.
  induction 1 as [|l layers Hl _ IH]; [reflexivity|].
  unfold removeTextLayer in *. cbn [filter].
  apply String.eqb_neq in Hl. rewrite Hl. cbn [negb]. now rewrite IH.
Qed.

(** X18.  Removing a layer that was just added, when no other layer has its
    id, gives back the layers there were: same layers, same order. *)
Theorem remove_undoes_add (layers : list TextLayer) (now : string) :
  Forall (fun l => id l <> now) layers ->
  removeTextLayer (addTextLayer now layers) now = layers.
Proof.
  intros Hfresh. unfold addTextLayer.
  rewrite removeTextLayer_app, (removeTextLayer_fresh _ _ Hfresh).
  unfold removeTextLayer. cbn [filter id]. rewrite String.eqb_refl.
  apply app_nil_r.
Qed.

(** X19.  Two layers added within the same millisecond share their id:
    an edit of one edits both, and removing one removes both (and any older
    layer with that id). *)
Theorem same_millisecond_layers_go_together (layers : list TextLayer)
    (now s : string) :
  let twice := addTextLayer now (addTextLayer now layers) in
  let edited := mkTextLayer now s 50 50 40 "#ffffff" "Inter" in
  updateTextLayer twice now (setText s)
  = updateTextLayer layers now (setText s) ++ [edited; edited]
  /\ removeTextLayer twice now = removeTextLayer layers now.
Proof.
  cbv zeta. unfold addTextLayer. rewrite <- app_assoc. cbn [app]. split.
  - unfold updateTextLayer. rewrite map_app. cbn [map id].
    now rewrite String.eqb_refl.
  - rewrite removeTextLayer_app. unfold removeTextLayer at 2.
    cbn [filter id]. rewrite String.eqb_refl. apply app_nil_r.
Qed.

Lemma spread_id (l : TextLayer) (updates : Updates) :
  newId updates = None -> id (spread l updates) = id l.
Proof. intros H. unfold spread. cbn [id]. now rewrite H. Qed.

Lemma spread_twice (l : TextLayer) (updates : Updates) :
  spread (spread l updates) updates = spread l updates.
Proof.
  unfold spread. cbn [id text x y size color font].
  destruct updates as [[?|] [?|] [?|] [?|] [?|] [?|] [?|]]; reflexivity.
Qed.

(** X20.  An edit that does not carry an id (the panel sends text, size,
    colour, x or y) keeps the layers and their order; it commutes with the
    removal of any layer; and sending it twice changes nothing more. *)
Theorem edit_keeps_layers (layers : list TextLayer) (i j : string)
    (updates : Updates) :
  newId updates = None ->
  map id (updateTextLayer layers i updates) = map id layers
  /\ removeTextLayer (updateTextLayer layers i updates) j
     = updateTextLayer (removeTextLayer layers j) i updates
  /\ updateTextLayer (updateTextLayer layers i updates) i updates
     = updateTextLayer layers i updates.
Proof.
  intros Hid. unfold updateTextLayer, removeTextLayer. split; [|split].
  - rewrite map_map. apply map_ext. intros l.
    destruct (String.eqb (id l) i); [now apply spread_id|reflexivity].
  - induction layers as [|l layers IH]; [reflexivity|].
    cbn [map filter]. rewrite IH.
    assert (Hsame : id (if String.eqb (id l) i then spread l updates else l) = id l).
    { destruct (String.eqb (id l) i); [now apply spread_id|reflexivity]. }
    rewrite Hsame. now destruct (negb (String.eqb (id l) j)).
  - rewrite map_map. apply map_ext. intros l.
    destruct (String.eqb (id l) i) eqn:Hl.
    + rewrite (spread_id l updates Hid), Hl. apply spread_twice.
    + now rewrite Hl.
Qed.

Lemma remove_undoes_add_witness :
  removeTextLayer (addTextLayer "1730000000000" Samples.texts) "1730000000000"
  = Samples.texts.
Proof.
  apply (remove_undoes_add Samples.texts "1730000000000").
  repeat constructor; discriminate.
Defined.

Lemma edit_keeps_layers_witness :
  map id (updateTextLayer Samples.texts "2" (setX 10)) = map id Samples.texts.
Proof.
  apply (edit_keeps_layers Samples.texts "2" "1" (setX 10)). reflexivity.
Defined.

End TextLayerFacts.

(** ** Stock video choice *)

Section PexelsFacts.
Import Pexels.




End PexelsFacts.

(** ** The synthetic waveform of the export *)

Section SyntheticWaveform.
Import JS Render.
Context {M : MathLib}.

Lemma trunc_Qeq (x : Q) (z : Z) : (x == inject_Z z)%Q -> trunc x = z.
Proof.
  intros H. unfold trunc. destruct (Qle_bool 0 x).
  - rewrite (Qfloor_comp _ _ H). apply Qfloor_Z.
  - rewrite (Qceiling_comp _ _ H). apply Qceiling_Z.
Qed.

(** X23.  The waveform the export hands to the oscilloscope is synthetic:
    1024 bytes computed from the bass sum and the time.  When the twenty
    lowest bins of the frame are zero it is the flat centre line, 128
    everywhere, whatever the audio is. *)
Theorem synthetic_waveform_shape (dataArray : list Z) (time : Q) :
  length (offlineTimeDomain dataArray time) = 1024%nat
  /\ Forall (fun v => 0 <= v <= 255) (offlineTimeDomain dataArray time)
  /\ ((bassSum dataArray == 0)%Q ->
      Forall (fun v => v = 128) (offlineTimeDomain dataArray time)).
Proof.
  unfold offlineTimeDomain. cbv zeta. split; [|split].
  - now rewrite length_map, range_length.
  - apply Forall_forall. intros v Hv. apply in_map_iff in Hv.
    destruct Hv as [i [<- _]]. unfold ToUint8.
    pose proof (Z.mod_pos_bound
                  (trunc (128 + Math_sin (inject_Z i * 0.1 + time * 10) * 64
                                * (bassSum dataArray / 20 / 255))%Q) 256 eq_refl).
    lia.
  - intros Hsilent. apply Forall_forall. intros v Hv. apply in_map_iff in Hv.
    destruct Hv as [i [<- _]]. unfold ToUint8.
    rewrite (trunc_Qeq _ 128); [reflexivity|].
    rewrite Hsilent. change (inject_Z 128) with 128%Q. field.
Qed.

End SyntheticWaveform.

(** ** Sample frames *)

Section FrameExamples.
Import JS Canvas Render Pipeline FrameReading.
Local Open Scope Q_scope.

Lemma clamp_bounded (x : Q) : -1 <= BoundedMath.clamp x <= 1.
Proof.
  unfold BoundedMath.clamp. split.
  - apply Q.le_max_l.
  - apply Q.max_lub; [discriminate|apply Q.le_min_l].
Qed.

Lemma pixelate_cell_size_bounded_witness :
  Forall (pixelGrid 1920 1080)
    (drawn Samples.halves 0
       (renderOfflineFrame (M := coarseMath) Samples.config
          (Effects.mkEffects false false false false false false false false true
             false false false false)
          Intensities.initial Samples.texts false false 0 Samples.quietFrame)).
Proof.
  destruct (pixelate_cell_size_bounded (M := coarseMath) Samples.config
              (Effects.mkEffects false false false false false false false false
                 true false false false false)
              Intensities.initial Samples.texts 1920 1080 false false false false
              0 Samples.quietFrame Samples.quietFrame Samples.halves 0)
    as [H _]; [split; discriminate|exact H].
Defined.

Lemma frame_without_random_is_reproducible_witness :
  drawn Samples.halves 0
    (renderOfflineFrame (M := coarseMath) Samples.config Effects.none
       Intensities.initial Samples.texts false false 0 Samples.quietFrame)
  = drawn (fun _ => 0) 7
      (renderOfflineFrame (M := coarseMath) Samples.config Effects.none
         Intensities.initial Samples.texts false false 0 Samples.quietFrame).
Proof.
  destruct (frame_without_random_is_reproducible (M := coarseMath) Samples.config
              Effects.none Intensities.initial Samples.texts 1920 1080 false false
              false false 0 Samples.quietFrame Samples.quietFrame
              Samples.halves (fun _ => 0) 0 7 eq_refl) as [H _].
  exact H.
Defined.

Lemma particles_are_drawable_witness :
  exists arcs,
    drawn Samples.halves 0
      (Particles.drawParticles (M := BoundedMath.clampedMath) 1920 1080 1 128 50
         "#ec4899")
    = map ParticleFill arcs
    /\ Forall drawable arcs.
Proof.
  apply (particles_are_drawable (M := BoundedMath.clampedMath) 1920 1080 1 128 50
           "#ec4899" Samples.halves 0).
  - intros x. apply clamp_bounded.
  - split; discriminate.
  - discriminate.
Defined.

Lemma particles_stay_in_frame_vertically_witness :
  0 <= arcY (Particles.dustParticle (M := coarseMath) 1920 1080 1 128 3) < 1080
  /\ -100 < arcY (Particles.risingParticle (M := coarseMath) 1920 1080 1 128
                    "#ec4899" 3) <= 1080.
Proof.
  apply (particles_stay_in_frame_vertically (M := coarseMath) 1920 1080 1 128
           "#ec4899" 3).
  - reflexivity.
  - discriminate.
  - discriminate.
Defined.


End FrameExamples.

(** ** The frames an export writes *)

Section WrittenFrames.
Import JS Canvas Render ExportJob Pipeline FrameReading ExportFrames.
Context {M : MathLib}.

Ltac run_job :=
  cbn [bind readRefs say await setExportProgress ret throw when tryCatch
       fst snd awaited randomUsed log].








End WrittenFrames.

Section WrittenFrameExamples.
Import JS Canvas ExportJob Pipeline ExportFrames.


End WrittenFrameExamples.
